(** * FinCrypt: the cryptographic envelope of [fincrypt.py] and [oaep.py]

    A shallow embedding of the two source files, with the imported
    primitives ([sha], [aes], [ecc], [reedsolomon], [pyasn1], [base64])
    as a class of operations, followed by the properties of the OAEP
    padding, of the block encoder, of the armor parser, of the keyfile
    readers and of the two top-level operations. *)

From Stdlib Require Import ZArith List Bool Lia String Ascii.
From Stdlib Require Import Strings.Byte.
From Stdlib Require Import DecimalString.
From Stdlib Require DecimalPos DecimalZ.
Import ListNotations.

Local Open Scope Z_scope.

(* ================================================================== *)
(** * Part I. Definitions *)
(* ================================================================== *)

(** ** Python values used by the two files *)

(** A [bytes] object. *)
Definition bytes := list byte.

(** The exception classes that the modelled code or its imports raise.
    All of them derive from [Exception], so every [except Exception]
    clause catches every constructor below. *)
Inductive exn : Type :=
| ValueError
| OverflowError
| IndexError
| TypeError
| FinCryptDecodingError (msg : string)
| LibraryError (origin : string).

(** The outcome of a Python call: a value, or a raised exception. *)
Inductive result (A : Type) : Type :=
| Ok (a : A)
| Raise (e : exn).
Arguments Ok {A} a.
Arguments Raise {A} e.

Definition bind {A B : Type} (c : result A) (k : A -> result B) : result B :=
  match c with
  | Ok a => k a
  | Raise e => Raise e
  end.

Notation "x <- c ;; k" := (bind c (fun x => k))
  (at level 61, c at next level, right associativity).
Notation "' p <- c ;; k" := (bind c (fun p => k))
  (at level 61, p pattern, c at next level, right associativity).

(** [try: c  except Exception: h]. *)
Definition try_except {A : Type} (c : result A) (h : result A) : result A :=
  match c with
  | Ok a => Ok a
  | Raise _ => h
  end.

(** ** Bytes and integers *)

Definition byte_val (b : byte) : Z := Z.of_N (Byte.to_N b).

Definition byte_of_Z (z : Z) : byte :=
  match Byte.of_N (Z.to_N (z mod 256)) with
  | Some b => b
  | None => x00
  end.

(** [len(data)]. *)
Definition len {A : Type} (l : list A) : Z := Z.of_nat (List.length l).

(** [int.from_bytes(data, 'little')]. *)
Fixpoint from_bytes_little (data : bytes) : Z :=
  match data with
  | [] => 0
  | b :: rest => byte_val b + 256 * from_bytes_little rest
  end.

(** The [n] low base-256 digits of [x], least significant first. *)
Fixpoint digits_little (n : nat) (x : Z) : bytes :=
  match n with
  | O => []
  | S n' => byte_of_Z x :: digits_little n' (x / 256)
  end.

(** [x.to_bytes(length, 'little')]: [ValueError] on a negative length,
    [OverflowError] on a negative integer or one that does not fit. *)
Definition to_bytes_little (x : Z) (size : Z) : result bytes :=
  if size <? 0 then Raise ValueError
  else if x <? 0 then Raise OverflowError
  else if 256 ^ size <=? x then Raise OverflowError
  else Ok (digits_little (Z.to_nat size) x).

(** Where a slice bound [i] falls in a sequence of [n] items: negative
    bounds count from the end, and every bound is clipped to [0..n]. *)
Definition slice_bound (n : Z) (i : Z) : nat :=
  Z.to_nat (if i <? 0 then Z.max 0 (n + i) else Z.min i n).

(** [data[:j]], [data[i:]] and [data[i:j]]. *)
Definition slice_to {A : Type} (data : list A) (j : Z) : list A :=
  firstn (slice_bound (len data) j) data.

Definition slice_from {A : Type} (data : list A) (i : Z) : list A :=
  skipn (slice_bound (len data) i) data.

Definition slice {A : Type} (data : list A) (i j : Z) : list A :=
  let lo := slice_bound (len data) i in
  let hi := slice_bound (len data) j in
  firstn (hi - lo) (skipn lo data).

(** [seq[i]] for a non-negative constant index. *)
Definition index {A : Type} (l : list A) (i : nat) : result A :=
  match nth_error l i with
  | Some a => Ok a
  | None => Raise IndexError
  end.

(** [str(n)] for an integer, and [s.encode('utf-8')] for a string of
    characters below U+0100. *)
Definition str_int (n : Z) : string := NilZero.string_of_int (Z.to_int n).

Definition utf8_char (c : ascii) : bytes :=
  let n := Z.of_N (N_of_ascii c) in
  if n <? 128 then [byte_of_Z n]
  else [byte_of_Z (192 + n / 64); byte_of_Z (128 + n mod 64)].

Fixpoint encode_utf8 (s : string) : bytes :=
  match s with
  | EmptyString => []
  | String c s' => utf8_char c ++ encode_utf8 s'
  end.

(** The [k] low bits of [n]. *)
Definition low_bits (n : Z) (k : Z) : Z := n mod 2 ^ k.

(** [random.getrandbits(k)] of [SystemRandom]: the operating system's
    entropy, here the argument [entropy], cut down to [k] bits; a
    negative [k] raises [ValueError]. *)
Definition getrandbits (entropy : Z) (k : Z) : result Z :=
  if k <? 0 then Raise ValueError else Ok (low_bits entropy k).

(** [range(start, stop, step)] as the list of its items; a zero step
    raises [ValueError]. *)
Definition range (start stop step : Z) : result (list Z) :=
  if step =? 0 then Raise ValueError
  else
    let count :=
      if 0 <? step then Z.max 0 ((stop - start + step - 1) / step)
      else Z.max 0 ((start - stop - step - 1) / (- step)) in
    Ok (map (fun i => start + Z.of_nat i * step) (seq 0 (Z.to_nat count))).

(** ** Records exchanged with the ASN.1 codec *)

(** The native form of a decoded [FinCryptPublicKey]. *)
Record public_key : Type := {
  kx : Z;
  ky : Z;
  pub_name : bytes;
  pub_email : bytes
}.

(** The native form of a decoded [FinCryptPrivateKey], as far as the
    code reads it. *)
Record private_key : Type := {
  k : Z;
  priv_name : bytes;
  priv_email : bytes
}.

(** The native form of a [FinCryptMessage]: the fields ['message'],
    ['key'] and ['signature']. *)
Record fincrypt_message : Type := {
  env_message : bytes;
  env_key : list Z;
  env_signature : list Z
}.

(** The random draws of one call of [encrypt_and_sign]: the ephemeral
    scalar of the key exchange, the bits read by [oaep_pad] and the
    per-signature scalar. *)
Record entropy : Type := {
  ecies_entropy : Z;
  oaep_entropy : Z;
  ecdsa_entropy : Z
}.

(** ** The imported primitives

    The modules [sha], [aes], [ecc], [reedsolomon], [asn1spec], [pyasn1]
    and [base64] are used through the operations below. *)
Class Primitives : Type := {
  (** [sha.SHAKE256(data).digest(n)] *)
  SHAKE256 : bytes -> nat -> bytes;
  (** [sha.SHA3_512(data).digest()] on a bytes object *)
  SHA3_512 : bytes -> bytes;
  (** [sha.SHA3_512(None).digest()] *)
  SHA3_512_None : result bytes;
  (** [AESModeOfOperationCBC(key, iv=iv)] *)
  cbc_mode : Type;
  AESModeOfOperationCBC : bytes -> bytes -> result cbc_mode;
  (** [e = Encrypter(mode=m); e.feed(data) + e.feed()] *)
  Encrypter_feed : cbc_mode -> bytes -> result bytes;
  (** [d = Decrypter(mode=m); d.feed(data) + d.feed()] *)
  Decrypter_feed : cbc_mode -> bytes -> result bytes;
  (** Modelled from the spec: [ecc.ECEIS(ecc.CURVE).exchange] on the
      public point [(kx, ky)], which is missing from the sources; it
      returns the ephemeral point [R] and, as an integer, the
      x-coordinate of the shared point [S]. *)
  ecies_exchange : Z -> Z -> Z -> result ((Z * Z) * Z);
  (** Modelled from the spec: [ecc.ECEIS(ecc.CURVE).recover] on the
      point [(rx, ry)] and the private scalar, which is missing from the
      sources; it returns the x-coordinate of the shared point. *)
  ecies_recover : Z -> Z -> Z -> result Z;
  (** [ecc.ECDSA(ecc.CURVE).sign(num, ecc.ECPrivateKey(k, ecc.CURVE))] *)
  ecdsa_sign : Z -> Z -> Z -> result (Z * Z);
  (** [ecc.ECDSA(ecc.CURVE).validate(r, s, num, pub)] with [pub] the
      public key of the point [(kx, ky)] *)
  ecdsa_validate : Z -> Z -> Z -> Z -> Z -> result bool;
  (** [bytes(reedsolomon.RSCodec(p).encode(data))] *)
  rs_encode : Z -> bytes -> result bytes;
  (** [bytes(reedsolomon.RSCodec(p).decode(data)[0])] *)
  rs_decode : Z -> bytes -> result bytes;
  (** [encode_der] of a [FinCryptMessage] *)
  encode_der : fincrypt_message -> result bytes;
  (** [encode_native(decode_ber(data, asn1Spec=...)[0])] for the three
      ASN.1 types *)
  decode_message : bytes -> result fincrypt_message;
  decode_public_key : bytes -> result public_key;
  decode_private_key : bytes -> result private_key;
  (** [base64.urlsafe_b64decode] *)
  urlsafe_b64decode : bytes -> result bytes
}.

(** ** oaep.py *)

Section Oaep.
Context {P : Primitives}.

Definition oaep_pad (rand : Z) (message : bytes) (append_length : Z)
  : result bytes :=
  r <- getrandbits rand append_length ;;
  let length := len message in
  let message := from_bytes_little message in
  r_bytes <- to_bytes_little r append_length ;;
  let x := Z.lxor (from_bytes_little (SHAKE256 r_bytes (Z.to_nat length)))
                  message in
  x_bytes <- to_bytes_little x length ;;
  let y := Z.lxor (from_bytes_little
                     (SHAKE256 x_bytes (Z.to_nat append_length))) r in
  x_out <- to_bytes_little x length ;;
  y_out <- to_bytes_little y append_length ;;
  Ok (x_out ++ y_out).

Definition oaep_unpad (data : bytes) (append_length : Z) : result bytes :=
  let length := len data - append_length in
  let x := from_bytes_little (slice_to data (- append_length)) in
  let y := from_bytes_little (slice_from data (- append_length)) in
  x_bytes <- to_bytes_little x length ;;
  r <- to_bytes_little
         (Z.lxor y (from_bytes_little
                      (SHAKE256 x_bytes (Z.to_nat append_length))))
         append_length ;;
  let message :=
    Z.lxor x (from_bytes_little (SHAKE256 r (Z.to_nat length))) in
  to_bytes_little message length.

End Oaep.

(** ** fincrypt.py: block encoder *)

(** The inner loop of [get_blocks]: [block_num += char * (256 ** i)] over
    [enumerate(block)]. *)
Fixpoint block_num_loop (block : bytes) (i : Z) (block_num : Z) : Z :=
  match block with
  | [] => block_num
  | char :: rest => block_num_loop rest (i + 1) (block_num + byte_val char * 256 ^ i)
  end.

Definition get_blocks (message : bytes) (block_size : Z) : result (list Z) :=
  starts <- range 0 (len message) block_size ;;
  Ok (map (fun i =>
             let block := slice message i (i + block_size) in
             let block := rev block in
             block_num_loop block 0 0)
          starts).

(** ** fincrypt.py: the armor parser

    The regular expressions of [strip_headers] use literals, character
    classes, [+] on a character class, concatenation, alternation, [?]
    and capturing groups.  [re.match] is a backtracking search anchored at
    the start of the text: [+] and [?] are greedy, alternatives are tried
    from left to right, and the first complete match is returned. *)

Inductive regex : Type :=
| Eps
| Lit (s : string)
| Class (p : ascii -> bool)
| Plus (p : ascii -> bool)
| Cat (r1 r2 : regex)
| Alt (r1 r2 : regex)
| Group (r : regex).

(** [r?] *)
Definition Opt (r : regex) : regex := Alt r Eps.

Fixpoint strip_prefix (p s : string) : option string :=
  match p with
  | EmptyString => Some s
  | String c p' =>
      match s with
      | EmptyString => None
      | String d s' => if Ascii.eqb c d then strip_prefix p' s' else None
      end
  end.

(** The text consumed between the position [s] and the later position
    [s'] of the same subject string. *)
Definition consumed (s s' : string) : string :=
  substring 0 (String.length s - String.length s') s.

Section Matcher.
Variable R : Type.

(** One or more characters of the class [p], longest run first. *)
Fixpoint match_plus (p : ascii -> bool) (s : string)
  (cont : string -> option R) : option R :=
  match s with
  | EmptyString => None
  | String c s' =>
      if p c then
        match match_plus p s' cont with
        | Some res => Some res
        | None => cont s'
        end
      else None
  end.

(** [match_regex r s groups cont] matches [r] at the start of [s] and
    hands the remaining text and the groups closed so far to [cont];
    a [None] from [cont] makes the matcher backtrack. *)
Fixpoint match_regex (r : regex) (s : string) (groups : list string)
  (cont : string -> list string -> option R) : option R :=
  match r with
  | Eps => cont s groups
  | Lit l =>
      match strip_prefix l s with
      | Some s' => cont s' groups
      | None => None
      end
  | Class p =>
      match s with
      | String c s' => if p c then cont s' groups else None
      | EmptyString => None
      end
  | Plus p => match_plus p s (fun s' => cont s' groups)
  | Cat r1 r2 =>
      match_regex r1 s groups (fun s' groups' => match_regex r2 s' groups' cont)
  | Alt r1 r2 =>
      match match_regex r1 s groups cont with
      | Some res => Some res
      | None => match_regex r2 s groups cont
      end
  | Group r' =>
      match_regex r' s groups
        (fun s' groups' => cont s' (groups' ++ [consumed s s']))
  end.

End Matcher.

(** [re.match(r, text)]: the captured groups, in the order of their
    numbers, of the first match at the start of [text]. *)
Definition re_match (r : regex) (text : string) : option (list string) :=
  match_regex (list string) r text [] (fun _ groups => Some groups).

Definition newline : ascii := ascii_of_nat 10.

Definition in_range (lo hi c : ascii) : bool :=
  (nat_of_ascii lo <=? nat_of_ascii c)%nat && (nat_of_ascii c <=? nat_of_ascii hi)%nat.

(** [-] *)
Definition dash (c : ascii) : bool := Ascii.eqb c "-".

(** [[a-zA-Z0-9\n\-_=]] *)
Definition body_class (c : ascii) : bool :=
  in_range "a" "z" c || in_range "A" "Z" c || in_range "0" "9" c
  || Ascii.eqb c newline || Ascii.eqb c "-" || Ascii.eqb c "_" || Ascii.eqb c "=".

(** [[^\n]] *)
Definition not_newline (c : ascii) : bool := negb (Ascii.eqb c newline).

Definition cat (rs : list regex) : regex := fold_right Cat Eps rs.

(** [(?:PUBLIC |PRIVATE )?(?:KEY|MESSAGE)] *)
Definition label_tail : regex :=
  Cat (Opt (Alt (Lit "PUBLIC ") (Lit "PRIVATE "))) (Alt (Lit "KEY") (Lit "MESSAGE")).

(** The pattern of [strip_headers]. *)
Definition armor_pattern : regex :=
  cat [ Plus dash; Lit " ";
        Group (Cat (Lit "BEGIN FINCRYPT ") label_tail);
        Lit " "; Plus dash; Class (Ascii.eqb newline);
        Group (Cat (Plus body_class) (Class not_newline));
        Class (Ascii.eqb newline); Plus dash; Lit " END FINCRYPT "; label_tail;
        Lit " "; Plus dash ].

Definition strip_headers (pem_text : string) : option string * option string :=
  match re_match armor_pattern pem_text with
  | None => (None, None)
  | Some groups => (nth_error groups 0, nth_error groups 1)
  end.

(** ** fincrypt.py: signatures, hybrid encryption, keyfiles, top level *)

Section FinCrypt.
Context {P : Primitives}.

(** The random scalar drawn inside [dsa.sign] is the argument [rand]. *)
Definition sign_number (rand : Z) (k : Z) (num : Z) : result (Z * Z) :=
  ecdsa_sign rand num k.

Definition validate_number (kx ky r s num : Z) : result bool :=
  ecdsa_validate r s num kx ky.

Definition encrypt_message (e : entropy) (kx ky : Z) (message : bytes)
  : result ((Z * Z) * bytes) :=
  '(r, s) <- ecies_exchange (ecies_entropy e) kx ky ;;
  let s := encode_utf8 (str_int s) in
  let key := SHA3_512 s in
  mode <- AESModeOfOperationCBC (slice_to key 32) (slice key 32 48) ;;
  padded <- oaep_pad (oaep_entropy e) message 32 ;;
  encrypted_blocks <- Encrypter_feed mode padded ;;
  let encrypted_key := (fst r, snd r) in
  Ok (encrypted_key, encrypted_blocks).

Definition decrypt_message (k : Z) (encrypted_key : list Z)
  (encrypted_message : bytes) : result bytes :=
  rx <- index encrypted_key 0 ;;
  ry <- index encrypted_key 1 ;;
  s <- ecies_recover rx ry k ;;
  let s := encode_utf8 (str_int s) in
  let key := SHA3_512 s in
  mode <- AESModeOfOperationCBC (slice_to key 32) (slice key 32 48) ;;
  decrypted_message <- Decrypter_feed mode encrypted_message ;;
  oaep_unpad decrypted_message 32.

(** [sha.SHA3_512(v).digest()] for a value that is a bytes object or
    [None]. *)
Definition sha3_512_digest (v : option bytes) : result bytes :=
  match v with
  | Some data => Ok (SHA3_512 data)
  | None => SHA3_512_None
  end.

Definition sign_message (rand : Z) (k : Z) (message : bytes) : result (Z * Z) :=
  let message_hash := SHA3_512 message in
  block <- get_blocks message_hash 1024 ;;
  b0 <- index block 0 ;;
  sign_number rand k b0.

(** [plaintext] is what [decrypt_and_verify] passes: the decrypted bytes,
    or [None]. *)
Definition authenticate_message (kx ky : Z) (plaintext : option bytes)
  (signature : list Z) : result bool :=
  message_hash <- sha3_512_digest plaintext ;;
  block <- get_blocks message_hash 1024 ;;
  s0 <- index signature 0 ;;
  s1 <- index signature 1 ;;
  b0 <- index block 0 ;;
  validate_number kx ky s0 s1 b0.

Definition read_message (message_text : string) : result string :=
  match strip_headers message_text with
  | (Some header, Some message) =>
      if String.eqb header "BEGIN FINCRYPT MESSAGE" then Ok message
      else Raise ValueError
  | _ => Raise ValueError
  end.

Definition read_public_key (key_text : string) : result public_key :=
  match strip_headers key_text with
  | (Some key_header, Some key_text) =>
      if negb (String.eqb key_header "BEGIN FINCRYPT PUBLIC KEY")
      then Raise ValueError
      else
        b64_decoded <- urlsafe_b64decode (encode_utf8 key_text) ;;
        b64_decoded <- rs_decode 30 b64_decoded ;;
        key <- decode_public_key b64_decoded ;;
        Ok {| kx := kx key; ky := ky key;
              pub_name := pub_name key; pub_email := pub_email key |}
  | _ => Raise ValueError
  end.

Definition read_private_key (key_text : string) : result private_key :=
  match strip_headers key_text with
  | (Some key_header, Some key_text) =>
      if negb (String.eqb key_header "BEGIN FINCRYPT PRIVATE KEY")
      then Raise ValueError
      else
        b64_decoded <- urlsafe_b64decode (encode_utf8 key_text) ;;
        key <- decode_private_key b64_decoded ;;
        Ok {| k := k key;
              priv_name := priv_name key; priv_email := priv_email key |}
  | _ => Raise ValueError
  end.

(** The keyfile arguments are the texts that [.read()] returns. *)
Definition encrypt_and_sign (e : entropy) (message : bytes)
  (recipient_key signer_key : string) : result bytes :=
  recipient_key <-
    try_except (read_public_key recipient_key)
      (Raise (FinCryptDecodingError "Recipient keyfile was malformed.")) ;;
  signer_key <-
    try_except (read_private_key signer_key)
      (Raise (FinCryptDecodingError "Private key file is malformed.")) ;;
  '(encrypted_key, encrypted_blocks) <-
    try_except (encrypt_message e (kx recipient_key) (ky recipient_key) message)
      (Raise (FinCryptDecodingError
                "Unknown error encountered when encrypting message.")) ;;
  signature <- sign_message (ecdsa_entropy e) (k signer_key) message ;;
  let encrypted_message :=
    {| env_message := encrypted_blocks;
       env_key := [fst encrypted_key; snd encrypted_key];
       env_signature := [fst signature; snd signature] |} in
  encoded_message <- encode_der encrypted_message ;;
  rs_encode 8 encoded_message.

Definition decrypt_and_verify (message : bytes)
  (sender_key private_key : string) : result (option bytes * bool) :=
  decryption_key <-
    try_except (read_private_key private_key)
      (Raise (FinCryptDecodingError "Private key file is malformed.")) ;;
  sender_key <-
    try_except (read_public_key sender_key)
      (Raise (FinCryptDecodingError "Sender key file is malformed.")) ;;
  match (message <- rs_decode 8 message ;; decode_message message) with
  | Raise _ => Ok (None, false)
  | Ok decoded =>
      let decrypted_message :=
        match decrypt_message (k decryption_key) (env_key decoded)
                (env_message decoded) with
        | Ok plaintext => Some plaintext
        | Raise _ => None
        end in
      let authenticated :=
        match authenticate_message (kx sender_key) (ky sender_key)
                decrypted_message (env_signature decoded) with
        | Ok verdict => verdict
        | Raise _ => false
        end in
      Ok (decrypted_message, authenticated)
  end.

End FinCrypt.

(** ** Reference readings used by the statements *)

(** [int.from_bytes(data, 'big')]: the bytes read as one base-256
    integer, most significant first. *)
Definition from_bytes_big (data : bytes) : Z :=
  fold_left (fun acc b => 256 * acc + byte_val b) data 0.

(** A character of the base64url alphabet with padding, or a newline:
    the class [[A-Za-z0-9\-_=\n]]. *)
Definition armor_body_char (c : ascii) : bool :=
  in_range "A" "Z" c || in_range "a" "z" c || in_range "0" "9" c
  || Ascii.eqb c "-" || Ascii.eqb c "_" || Ascii.eqb c "=" || Ascii.eqb c newline.

(** A full match of [[A-Za-z0-9\-_=\n]+]. *)
Definition armor_body_ok (body : string) : bool :=
  match body with
  | EmptyString => false
  | _ => forallb armor_body_char (list_ascii_of_string body)
  end.

(** Every character of [s] is in the class [p]. *)
Fixpoint all_chars (p : ascii -> bool) (s : string) : bool :=
  match s with
  | EmptyString => true
  | String c s' => p c && all_chars p s'
  end.

(** [denotes r s s' g g']: the expression [r] can consume the text
    between the position [s] and the later position [s'], extending the
    closed groups [g] to [g']. *)
Fixpoint denotes (r : regex) (s s' : string) (g g' : list string) : Prop :=
  match r with
  | Eps => s' = s /\ g' = g
  | Lit l => s = (l ++ s')%string /\ g' = g
  | Class p => (exists c, s = String c s' /\ p c = true) /\ g' = g
  | Plus p =>
      (exists run, s = (run ++ s')%string /\ run <> EmptyString
                   /\ all_chars p run = true) /\ g' = g
  | Cat r1 r2 =>
      exists s1 g1, denotes r1 s s1 g g1 /\ denotes r2 s1 s' g1 g'
  | Alt r1 r2 => denotes r1 s s' g g' \/ denotes r2 s s' g g'
  | Group r' => exists g1, denotes r' s s' g g1 /\ g' = g1 ++ [consumed s s']
  end.

Section Readings.
Context {P : Primitives}.

(** The nonce that a padded block carries: [y XOR SHAKE256(x, 32)] for
    the split [x || y] of the block, with [y] the last [append_length]
    bytes. *)
Definition embedded_nonce (padded : bytes) (append_length : Z) : Z :=
  let x := slice_to padded (- append_length) in
  let y := slice_from padded (- append_length) in
  Z.lxor (from_bytes_little y)
         (from_bytes_little (SHAKE256 x (Z.to_nat append_length))).

(** [K := SHA3-512(utf8(decimal_string(S.x)))] and its two slices
    [K[0..32]] and [K[32..48]]. *)
Definition key_material (sx : Z) : bytes := SHA3_512 (encode_utf8 (str_int sx)).
Definition aes_key_of (K : bytes) : bytes := firstn 32 K.
Definition iv_of (K : bytes) : bytes := firstn 16 (skipn 32 K).

(** The outer frame and the envelope of a blob. *)
Definition open_envelope (blob : bytes) : result fincrypt_message :=
  framed <- rs_decode 8 blob ;; decode_message framed.

(** The hash constructor rejects [None]: [sha.SHA3_512(None).digest()]
    raises. *)
Definition hash_rejects_None : Prop := exists e, SHA3_512_None = Raise e.

End Readings.

(** The same primitives with another Reed-Solomon decoder. *)
Definition with_rs_decode (P : Primitives) (dec : Z -> bytes -> result bytes)
  : Primitives :=
  {| SHAKE256 := @SHAKE256 P;
     SHA3_512 := @SHA3_512 P;
     SHA3_512_None := @SHA3_512_None P;
     cbc_mode := @cbc_mode P;
     AESModeOfOperationCBC := @AESModeOfOperationCBC P;
     Encrypter_feed := @Encrypter_feed P;
     Decrypter_feed := @Decrypter_feed P;
     ecies_exchange := @ecies_exchange P;
     ecies_recover := @ecies_recover P;
     ecdsa_sign := @ecdsa_sign P;
     ecdsa_validate := @ecdsa_validate P;
     rs_encode := @rs_encode P;
     rs_decode := dec;
     encode_der := @encode_der P;
     decode_message := @decode_message P;
     decode_public_key := @decode_public_key P;
     decode_private_key := @decode_private_key P;
     urlsafe_b64decode := @urlsafe_b64decode P |}.



(** ** A small executable primitive layer

    Simple stand-ins with the shape of the real primitives: an
    extendable-output function, a 64-byte hash, a reversible cipher with
    a key check, scalar arithmetic modulo 251 in place of the curve, a
    code that appends parity symbols, and a self-delimiting serialisation
    of message envelopes.  They make every operation of the model run on
    concrete inputs. *)
Module Toy.

Definition q : Z := 251.

Definition shake256 (data : bytes) (n : nat) : bytes :=
  map (fun i => byte_of_Z (from_bytes_little data + 7 * Z.of_nat i + 1)) (seq 0 n).

Definition sha3_512 (data : bytes) : bytes :=
  map (fun i => byte_of_Z (from_bytes_little data + len data + 3 * Z.of_nat i))
      (seq 0 64).

Definition cbc (key iv : bytes) : result (bytes * bytes) :=
  if (len key =? 32) && (len iv =? 16) then Ok (key, iv) else Raise ValueError.

Definition encrypter (mode : bytes * bytes) (data : bytes) : result bytes :=
  Ok (rev data ++ firstn 1 (fst mode)).

Definition decrypter (mode : bytes * bytes) (data : bytes) : result bytes :=
  match rev data with
  | [] => Raise ValueError
  | _ :: plain => Ok plain
  end.

Definition exchange (u kx ky : Z) : result ((Z * Z) * Z) :=
  Ok ((u mod q, 1), (u * kx) mod q).

Definition recover (rx ry k : Z) : result Z := Ok ((k * rx) mod q).

Definition sign (u num k : Z) : result (Z * Z) :=
  let r := u mod q + 1 in
  Ok (r, (num + r * k) mod q).

Definition validate (r s num kx ky : Z) : result bool :=
  Ok (s =? (num + r * kx) mod q).

(** The public point of the private scalar [k]. *)
Definition corresponds (k kx ky : Z) : Prop := kx = k mod q /\ ky = 1.

Definition rs_enc (parity : Z) (data : bytes) : result bytes :=
  Ok (data ++ repeat x00 (Z.to_nat parity)).

Definition rs_dec (parity : Z) (data : bytes) : result bytes :=
  if len data <? parity then Raise (LibraryError "reedsolomon")
  else Ok (firstn (List.length data - Z.to_nat parity) data).

(** Self-delimiting codes: a natural number as that many [x01] bytes and
    a closing [x00]; an integer as a sign byte and its magnitude; a list
    as its length and its items. *)
Definition put_nat (n : nat) : bytes := repeat x01 n ++ [x00].

Fixpoint get_nat (data : bytes) : option (nat * bytes) :=
  match data with
  | [] => None
  | b :: rest =>
      if Byte.eqb b x00 then Some (O, rest)
      else match get_nat rest with
           | Some (n, rest') => Some (S n, rest')
           | None => None
           end
  end.

Definition put_int (z : Z) : bytes :=
  (if z <? 0 then x01 else x00) :: put_nat (Z.abs_nat z).

Definition get_int (data : bytes) : option (Z * bytes) :=
  match data with
  | [] => None
  | sign_byte :: rest =>
      match get_nat rest with
      | Some (n, rest') =>
          Some (if Byte.eqb sign_byte x00 then Z.of_nat n else - Z.of_nat n, rest')
      | None => None
      end
  end.

Definition put_ints (l : list Z) : bytes :=
  put_nat (List.length l) ++ List.concat (map put_int l).

Fixpoint get_ints_n (n : nat) (data : bytes) : option (list Z * bytes) :=
  match n with
  | O => Some ([], data)
  | S n' =>
      match get_int data with
      | Some (z, rest) =>
          match get_ints_n n' rest with
          | Some (l, rest') => Some (z :: l, rest')
          | None => None
          end
      | None => None
      end
  end.

Definition get_ints (data : bytes) : option (list Z * bytes) :=
  match get_nat data with
  | Some (n, rest) => get_ints_n n rest
  | None => None
  end.

Definition enc_message (m : fincrypt_message) : result bytes :=
  Ok (put_ints (env_key m) ++ put_ints (env_signature m) ++ env_message m).

Definition dec_message (data : bytes) : result fincrypt_message :=
  match get_ints data with
  | Some (key, rest) =>
      match get_ints rest with
      | Some (sig, body) =>
          Ok {| env_message := body; env_key := key; env_signature := sig |}
      | None => Raise (LibraryError "pyasn1")
      end
  | None => Raise (LibraryError "pyasn1")
  end.

Definition dec_public_key (data : bytes) : result public_key :=
  match data with
  | [] => Raise (LibraryError "pyasn1")
  | _ => Ok {| kx := from_bytes_little data mod q; ky := 1;
               pub_name := []; pub_email := [] |}
  end.

Definition dec_private_key (data : bytes) : result private_key :=
  match data with
  | [] => Raise (LibraryError "pyasn1")
  | _ => Ok {| k := from_bytes_little data; priv_name := []; priv_email := [] |}
  end.

Definition b64decode (data : bytes) : result bytes := Ok data.

Definition primitives : Primitives :=
  {| SHAKE256 := shake256;
     SHA3_512 := sha3_512;
     SHA3_512_None := Raise TypeError;
     cbc_mode := (bytes * bytes)%type;
     AESModeOfOperationCBC := cbc;
     Encrypter_feed := encrypter;
     Decrypter_feed := decrypter;
     ecies_exchange := exchange;
     ecies_recover := recover;
     ecdsa_sign := sign;
     ecdsa_validate := validate;
     rs_encode := rs_enc;
     rs_decode := rs_dec;
     encode_der := enc_message;
     decode_message := dec_message;
     decode_public_key := dec_public_key;
     decode_private_key := dec_private_key;
     urlsafe_b64decode := b64decode |}.

Definition nl : string := String newline "".

Definition armored (label body : string) : string :=
  ("----- BEGIN FINCRYPT " ++ label ++ " -----" ++ nl ++ body ++ nl
   ++ "----- END FINCRYPT " ++ label ++ " -----")%string.

Definition parity30 : string := "AAAAAAAAAAAAAAAAAAAAAAAAAAAAAA".

(** Two identities: private scalars 15682 and 15683, public points
    [(120, 1)] and [(121, 1)]. *)
Definition alice_private : string := armored "PRIVATE KEY" "B=".
Definition alice_public : string := armored "PUBLIC KEY" ("x" ++ parity30).
Definition bob_private : string := armored "PRIVATE KEY" "C=".
Definition bob_public : string := armored "PUBLIC KEY" ("y" ++ parity30).

Definition draws : entropy :=
  {| ecies_entropy := 1000; oaep_entropy := 2 ^ 40 + 5; ecdsa_entropy := 77 |}.

Definition hello : bytes := ["h"; "e"; "l"; "l"; "o"]%byte.

(** A framed envelope with an empty ciphertext, which [decrypter]
    refuses, and a second one whose signature is the one that [sign]
    gives for the digest of the empty message under Alice's scalar. *)
Definition undecryptable : bytes :=
  put_ints [1; 1] ++ put_ints [1; 1] ++ [] ++ repeat x00 8.


End Toy.


(** ** fincrypt.py: the remaining functions *)

(** [_flatten(l)]. *)
Definition _flatten {A : Type} (l : list (list A)) : list A :=
  flat_map (fun sublist => sublist) l.

(** The list comprehension of [get_blocks]:
    [[message[i:i + block_size] for i in range(0, len(message), block_size)]]. *)
Definition message_blocks (message : bytes) (block_size : Z)
  : result (list bytes) :=
  starts <- range 0 (len message) block_size ;;
  Ok (map (fun i => slice message i (i + block_size)) starts).

(** The [while block:] loop of [get_bytes].  Python integers are
    unbounded and [//] rounds down, so the loop need not end; [fuel]
    bounds the number of tests of the condition, and [None] means that
    the loop is still running after that many. *)
Fixpoint block_text_loop (fuel : nat) (block : Z) (block_text : list bytes)
  : option (list bytes) :=
  match fuel with
  | O => None
  | S fuel' =>
      if block =? 0 then Some block_text
      else
        let message_num := block mod 256 in
        let block := block / 256 in
        block_text_loop fuel' block (block_text ++ [[byte_of_Z message_num]])
  end.

(** The [for block in block_nums:] loop of [get_bytes], with the list
    [message] built so far. *)
Fixpoint get_bytes_loop (fuel : nat) (block_nums : list Z) (message : list bytes)
  : option (list bytes) :=
  match block_nums with
  | [] => Some message
  | block :: rest =>
      match block_text_loop fuel block [] with
      | None => None
      | Some block_text => get_bytes_loop fuel rest (message ++ rev block_text)
      end
  end.

(** [get_bytes(block_nums)]; [b''.join] is the concatenation. *)
Definition get_bytes (fuel : nat) (block_nums : list Z) : option bytes :=
  match get_bytes_loop fuel block_nums [] with
  | None => None
  | Some message => Some (List.concat message)
  end.

(** A byte string without its leading zero bytes. *)
Fixpoint drop_zeros (data : bytes) : bytes :=
  match data with
  | [] => []
  | b :: rest => if Byte.eqb b x00 then drop_zeros rest else data
  end.

(** The six labels that the header group of [strip_headers] can
    capture, and the same without ["BEGIN FINCRYPT "]. *)
Definition armor_kinds : list string :=
  ["PUBLIC KEY"; "PUBLIC MESSAGE"; "PRIVATE KEY"; "PRIVATE MESSAGE";
   "KEY"; "MESSAGE"]%string.

Definition armor_headers : list string :=
  map (append "BEGIN FINCRYPT ") armor_kinds.

(** A non-empty run of [-]. *)
Definition dash_run (s : string) : Prop :=
  s <> EmptyString /\ all_chars dash s = true.

(** ** fincrypt.py: the command-line operations

    The file system, the input stream and the two output streams are
    explicit: a keyfile is [Some text] when the path exists and [None]
    when it does not, [infile] is what [arguments.infile.read()] returns,
    and the result holds what was written to [sys.stdout] and
    [sys.stderr]. *)

(** The further imports of the command-line operations. *)
Class Codecs : Type := {
  (** [zlib.compress(data, level=9)] *)
  zlib_compress : bytes -> bytes;
  (** [zlib.decompress(data)] *)
  zlib_decompress : bytes -> result bytes;
  (** [base64.urlsafe_b64encode(data).decode('utf-8')] *)
  urlsafe_b64encode : bytes -> string
}.

(** How a command-line operation ends: it returns after writing
    [output], it raises an exception of the core, or it raises
    [FileNotFoundError]. *)
Inductive cli_result (A : Type) : Type :=
| Returned (output : A)
| Raised (e : exn)
| FileNotFound (msg : string).
Arguments Returned {A} output.
Arguments Raised {A} e.
Arguments FileNotFound {A} msg.

(** What [decrypt_text] and [decrypt_binary] write. *)
Record decrypt_output : Type := {
  stdout_buffer : bytes;
  stderr : string
}.

Fixpoint repeat_char (c : ascii) (n : nat) : string :=
  match n with
  | O => EmptyString
  | S n' => String c (repeat_char c n')
  end.

(** [s.center(width, fillchar)]: when the padding is odd, the extra
    character goes to the left if [width] is odd and to the right
    otherwise. *)
Definition center (s : string) (width : nat) (fillchar : ascii) : string :=
  let n := String.length s in
  if (width <=? n)%nat then s
  else
    let marg := (width - n)%nat in
    let left := (marg / 2 + Nat.land (Nat.land marg width) 1)%nat in
    (repeat_char fillchar left ++ s ++ repeat_char fillchar (marg - left))%string.

(** [[message[i:i + 76] for i in range(0, len(message), 76)]] on a
    string. *)
Definition text_lines (message : string) : result (list string) :=
  let chars := list_ascii_of_string message in
  starts <- range 0 (len chars) 76 ;;
  Ok (map (fun i => string_of_list_ascii (slice chars i (i + 76))) starts).

(** [s.split(sep)] for a one-character separator. *)
Fixpoint split_char (sep : ascii) (s : string) : list string :=
  match s with
  | EmptyString => [EmptyString]
  | String c s' =>
      if Ascii.eqb c sep then EmptyString :: split_char sep s'
      else
        match split_char sep s' with
        | piece :: pieces => String c piece :: pieces
        | [] => [String c EmptyString]
        end
  end.

(** [base64.urlsafe_b64decode(s)] for a string [s]: a character outside
    ASCII raises [ValueError]. *)
Definition is_ascii (c : ascii) : bool := (nat_of_ascii c <? 128)%nat.

(** [str(e)] for an exception caught from [decrypt_and_verify], which
    raises nothing but [FinCryptDecodingError] with its message. *)
Definition exn_text (e : exn) : string :=
  match e with
  | FinCryptDecodingError msg => msg
  | _ => EmptyString
  end.

Section CommandLine.
Context {P : Primitives} {C : Codecs}.

Definition urlsafe_b64decode_str (s : string) : result bytes :=
  if all_chars is_ascii s then urlsafe_b64decode (encode_utf8 s)
  else Raise ValueError.

(** The three writes of [encrypt_text] for the base64 text [message]. *)
Definition armor_message (message : string) : result string :=
  lines <- text_lines message ;;
  Ok (center " BEGIN FINCRYPT MESSAGE " 76 "-" ++ String newline EmptyString
      ++ String.concat (String newline EmptyString) lines
      ++ String newline EmptyString ++ center " END FINCRYPT MESSAGE " 76 "-")%string.

Definition encrypt_text (e : entropy) (recipient_keyfile private_keyfile : option string)
  (infile : bytes) : cli_result string :=
  match recipient_keyfile with
  | None => FileNotFound "Recipient keyfile does not exist."
  | Some recipient_key =>
      match private_keyfile with
      | None => FileNotFound "Private keyfile does not exist."
      | Some private_key =>
          match
            message <- encrypt_and_sign e (zlib_compress infile)
                         recipient_key private_key ;;
            armor_message (urlsafe_b64encode message)
          with
          | Ok written => Returned written
          | Raise err => Raised err
          end
      end
  end.

Definition encrypt_binary (e : entropy) (recipient_keyfile private_keyfile : option string)
  (infile : bytes) : cli_result bytes :=
  match recipient_keyfile with
  | None => FileNotFound "Recipient keyfile does not exist."
  | Some recipient_key =>
      match private_keyfile with
      | None => FileNotFound "Private keyfile does not exist."
      | Some private_key =>
          match encrypt_and_sign e (zlib_compress infile)
                  recipient_key private_key with
          | Ok message => Returned message
          | Raise err => Raised err
          end
      end
  end.

(** The common end of [decrypt_text] and [decrypt_binary], from the
    call of [decrypt_and_verify] on. *)
Definition decrypt_and_report (in_message : bytes) (sender_key private_key : string)
  : decrypt_output :=
  match decrypt_and_verify in_message sender_key private_key with
  | Raise err =>
      {| stdout_buffer := []; stderr := (exn_text err ++ String newline EmptyString)%string |}
  | Ok (message, verified) =>
      let first :=
        match message with
        | None =>
            {| stdout_buffer := [];
               stderr := ("Decryption failed." ++ String newline EmptyString)%string |}
        | Some message =>
            match zlib_decompress message with
            | Ok data => {| stdout_buffer := data; stderr := EmptyString |}
            | Raise _ =>
                {| stdout_buffer := [];
                   stderr := ("Decompression failed." ++ String newline EmptyString)%string |}
            end
        end in
      if negb verified then
        {| stdout_buffer := stdout_buffer first;
           stderr := (stderr first ++ "Verification failed. Message is not intact."
                      ++ String newline EmptyString)%string |}
      else first
  end.

Definition decrypt_text (sender_keyfile private_keyfile : option string)
  (infile : string) : cli_result decrypt_output :=
  match sender_keyfile with
  | None => FileNotFound "Sender keyfile does not exist."
  | Some sender_key =>
      match private_keyfile with
      | None => FileNotFound "Private keyfile does not exist."
      | Some private_key =>
          match
            in_message <- read_message infile ;;
            let in_message :=
              String.concat EmptyString (split_char newline in_message) in
            urlsafe_b64decode_str in_message
          with
          | Raise _ =>
              Returned {| stdout_buffer := [];
                          stderr := ("Message was malformed."
                                     ++ String newline EmptyString)%string |}
          | Ok in_message =>
              Returned (decrypt_and_report in_message sender_key private_key)
          end
      end
  end.

Definition decrypt_binary (sender_keyfile private_keyfile : option string)
  (infile : bytes) : cli_result decrypt_output :=
  match sender_keyfile with
  | None => FileNotFound "Sender keyfile does not exist."
  | Some sender_key =>
      match private_keyfile with
      | None => FileNotFound "Private keyfile does not exist."
      | Some private_key =>
          Returned (decrypt_and_report infile sender_key private_key)
      end
  end.

End CommandLine.

(** Executable stand-ins for the codecs: a compressor that prefixes a
    marker byte, and a text encoding that writes each byte as two
    letters of [A..P]. *)
Module ToyCodecs.

Definition compress (data : bytes) : bytes := "z"%byte :: data.

Definition decompress (data : bytes) : result bytes :=
  match data with
  | "z"%byte :: rest => Ok rest
  | _ => Raise (LibraryError "zlib")
  end.

Definition letter (n : Z) : ascii := ascii_of_nat (65 + Z.to_nat n).

Fixpoint b64encode (data : bytes) : string :=
  match data with
  | [] => EmptyString
  | b :: rest =>
      String (letter (byte_val b / 16))
        (String (letter (byte_val b mod 16)) (b64encode rest))
  end.

Fixpoint b64decode (data : bytes) : result bytes :=
  match data with
  | [] => Ok []
  | hi :: lo :: rest =>
      if (65 <=? byte_val hi) && (byte_val hi <? 81)
         && (65 <=? byte_val lo) && (byte_val lo <? 81)
      then
        match b64decode rest with
        | Ok decoded =>
            Ok (byte_of_Z (16 * (byte_val hi - 65) + (byte_val lo - 65)) :: decoded)
        | Raise e => Raise e
        end
      else Raise (LibraryError "binascii")
  | _ => Raise (LibraryError "binascii")
  end.

Definition codecs : Codecs :=
  {| zlib_compress := compress;
     zlib_decompress := decompress;
     urlsafe_b64encode := b64encode |}.

(** The primitive layer of [Toy] with [b64decode] as base64 decoder and
    keyfile decoders that read their payload as before. *)
Definition primitives : Primitives :=
  {| SHAKE256 := Toy.shake256;
     SHA3_512 := Toy.sha3_512;
     SHA3_512_None := Raise TypeError;
     cbc_mode := (bytes * bytes)%type;
     AESModeOfOperationCBC := Toy.cbc;
     Encrypter_feed := Toy.encrypter;
     Decrypter_feed := Toy.decrypter;
     ecies_exchange := Toy.exchange;
     ecies_recover := Toy.recover;
     ecdsa_sign := Toy.sign;
     ecdsa_validate := Toy.validate;
     rs_encode := Toy.rs_enc;
     rs_decode := Toy.rs_dec;
     encode_der := Toy.enc_message;
     decode_message := Toy.dec_message;
     decode_public_key := Toy.dec_public_key;
     decode_private_key := Toy.dec_private_key;
     urlsafe_b64decode := b64decode |}.

Definition parity30 : string :=
  "AAAAAAAAAAAAAAAAAAAAAAAAAAAAAAAAAAAAAAAAAAAAAAAAAAAAAAAAAAAA".

(** Alice: private scalar 66, public point [(66, 1)]; Bob: 67 and
    [(67, 1)]. *)
Definition alice_private : string := Toy.armored "PRIVATE KEY" "EC".
Definition alice_public : string := Toy.armored "PUBLIC KEY" ("EC" ++ parity30).
Definition bob_private : string := Toy.armored "PRIVATE KEY" "ED".
Definition bob_public : string := Toy.armored "PUBLIC KEY" ("ED" ++ parity30).

End ToyCodecs.

(** A character of the base64url alphabet, padding included:
    [[A-Za-z0-9\-_=]]. *)
Definition base64url_char (c : ascii) : bool :=
  in_range "A" "Z" c || in_range "a" "z" c || in_range "0" "9" c
  || Ascii.eqb c "-" || Ascii.eqb c "_" || Ascii.eqb c "=".

(** The two lines that [encrypt_text] writes around the body, and the
    parts of [armor_pattern] from the body on. *)
Definition message_header_line : string := center " BEGIN FINCRYPT MESSAGE " 76 "-".
Definition message_footer_line : string := center " END FINCRYPT MESSAGE " 76 "-".

Definition body_pattern : regex :=
  Group (Cat (Plus body_class) (Class not_newline)).

Definition footer_pattern : regex :=
  cat [Class (Ascii.eqb newline); Plus dash; Lit " END FINCRYPT "; label_tail;
       Lit " "; Plus dash].

(** The continuation that [re_match] starts from. *)
Definition matched (rest : string) (groups : list string) : option (list string) :=
  Some groups.

(* ================================================================== *)
(** * Part II. Properties *)
(* ================================================================== *)

(** ** The result monad *)

Lemma bind_Ok {A B : Type} (c : result A) (f : A -> result B) (b : B) :
  bind c f = Ok b -> exists a, c = Ok a /\ f a = Ok b.
Proof.
  destruct c as [a | e]; simpl; intro H.
  - exists a; split; [reflexivity | exact H].
  - discriminate H.
Qed.

Lemma try_except_Ok {A : Type} (c h : result A) (a : A) :
  c = Ok a -> try_except c h = Ok a.
Proof. intros ->; reflexivity. Qed.

(** ** Bytes as base-256 digits *)

Lemma byte_val_range (b : byte) : 0 <= byte_val b < 256.
Proof.
  unfold byte_val.
  pose proof (Byte.to_N_bounded b) as Hb.
  lia.
Qed.

Lemma byte_of_Z_val (b : byte) : byte_of_Z (byte_val b) = b.
Proof.
  unfold byte_of_Z.
  rewrite Z.mod_small by apply byte_val_range.
  unfold byte_val.
  rewrite N2Z.id, Byte.of_to_N.
  reflexivity.
Qed.

Lemma byte_val_of_Z (z : Z) : byte_val (byte_of_Z z) = z mod 256.
Proof.
  unfold byte_of_Z, byte_val.
  pose proof (Z.mod_pos_bound z 256 ltac:(lia)) as Hz.
  destruct (Byte.of_N (Z.to_N (z mod 256))) as [b |] eqn:E.
  - apply Byte.to_of_N in E.
    rewrite E, Z2N.id by lia.
    reflexivity.
  - pose proof (Byte.to_of_N_option_map (Z.to_N (z mod 256))) as Hm.
    rewrite E in Hm; simpl in Hm.
    destruct (N.leb_spec (Z.to_N (z mod 256)) 255); [discriminate | lia].
Qed.

Lemma len_nonneg {A : Type} (l : list A) : 0 <= len l.
Proof. unfold len; lia. Qed.

Lemma len_app {A : Type} (l1 l2 : list A) : len (l1 ++ l2) = len l1 + len l2.
Proof. unfold len; rewrite length_app; lia. Qed.

Lemma len_cons {A : Type} (a : A) (l : list A) : len (a :: l) = len l + 1.
Proof. unfold len; simpl List.length; lia. Qed.

Lemma from_bytes_little_range (data : bytes) :
  0 <= from_bytes_little data < 256 ^ len data.
Proof.
  induction data as [| b rest IH].
  - simpl; unfold len; simpl; lia.
  - rewrite len_cons, Z.pow_add_r by (try apply len_nonneg; lia).
    cbn [from_bytes_little].
    change (256 ^ 1) with 256.
    pose proof (byte_val_range b).
    lia.
Qed.

Lemma length_digits_little (n : nat) (x : Z) :
  List.length (digits_little n x) = n.
Proof.
  revert x; induction n as [| n IH]; intro x; simpl; [| rewrite IH]; reflexivity.
Qed.

Lemma digits_little_from_bytes (data : bytes) :
  digits_little (List.length data) (from_bytes_little data) = data.
Proof.
  induction data as [| b rest IH]; [reflexivity |].
  pose proof (byte_val_range b) as Hb.
  cbn [from_bytes_little digits_little List.length].
  f_equal.
  - unfold byte_of_Z.
    replace (byte_val b + 256 * from_bytes_little rest)
      with (byte_val b + from_bytes_little rest * 256) by lia.
    rewrite Z.mod_add by lia.
    apply (byte_of_Z_val b).
  - replace (byte_val b + 256 * from_bytes_little rest)
      with (from_bytes_little rest * 256 + byte_val b) by lia.
    rewrite Z.div_add_l by lia.
    rewrite Z.div_small by lia.
    rewrite Z.add_0_r.
    exact IH.
Qed.

Lemma from_bytes_digits_little (n : nat) (x : Z) :
  0 <= x < 256 ^ Z.of_nat n ->
  from_bytes_little (digits_little n x) = x.
Proof.
  revert x; induction n as [| n IH]; intros x Hx.
  - simpl in *. lia.
  - rewrite Nat2Z.inj_succ, Z.pow_succ_r in Hx by lia.
    cbn [from_bytes_little digits_little].
    rewrite byte_val_of_Z, IH.
    + pose proof (Z.div_mod x 256 ltac:(lia)). lia.
    + split; [apply Z.div_pos; lia | apply Z.div_lt_upper_bound; lia].
Qed.

(** Exclusive or keeps integers below a power of two. *)
Lemma lxor_range (a b n : Z) :
  0 <= n -> 0 <= a < 2 ^ n -> 0 <= b < 2 ^ n -> 0 <= Z.lxor a b < 2 ^ n.
Proof.
  intros Hn Ha Hb.
  assert (Hnn : 0 <= Z.lxor a b) by (apply Z.lxor_nonneg; lia).
  split; [exact Hnn |].
  destruct (Z.eq_dec (Z.lxor a b) 0) as [E | E].
  - rewrite E. apply Z.pow_pos_nonneg; lia.
  - assert (Hpos : 0 < n).
    { destruct (Z.eq_dec n 0) as [-> | Nn]; [| lia].
      exfalso; apply E.
      change (2 ^ 0) with 1 in Ha, Hb.
      replace a with 0 by lia; replace b with 0 by lia.
      reflexivity. }
    apply Z.log2_lt_pow2; [lia |].
    pose proof (Z.log2_lxor a b ltac:(lia) ltac:(lia)) as Hl.
    assert (Hla : Z.log2 a < n).
    { destruct (Z.eq_dec a 0) as [-> | Na]; [simpl; lia |].
      apply Z.log2_lt_pow2; lia. }
    assert (Hlb : Z.log2 b < n).
    { destruct (Z.eq_dec b 0) as [-> | Nb]; [simpl; lia |].
      apply Z.log2_lt_pow2; lia. }
    lia.
Qed.

Lemma pow256 (n : Z) : 0 <= n -> 256 ^ n = 2 ^ (8 * n).
Proof.
  intro Hn.
  rewrite Z.pow_mul_r by lia.
  reflexivity.
Qed.

Lemma lxor_range256 (a b n : Z) :
  0 <= n -> 0 <= a < 256 ^ n -> 0 <= b < 256 ^ n -> 0 <= Z.lxor a b < 256 ^ n.
Proof.
  intros Hn Ha Hb.
  rewrite pow256 in * by lia.
  apply lxor_range; lia.
Qed.

Lemma lxor_cancel_l (a b : Z) : Z.lxor (Z.lxor a b) a = b.
Proof.
  rewrite (Z.lxor_comm a b), Z.lxor_assoc, Z.lxor_nilpotent, Z.lxor_0_r.
  reflexivity.
Qed.

Lemma lxor_cancel_r (a b : Z) : Z.lxor (Z.lxor a b) b = a.
Proof.
  rewrite Z.lxor_assoc, Z.lxor_nilpotent, Z.lxor_0_r.
  reflexivity.
Qed.

(** [to_bytes] succeeds exactly on the integers that fit. *)
Lemma to_bytes_little_fits (x n : Z) :
  0 <= n -> 0 <= x < 256 ^ n ->
  to_bytes_little x n = Ok (digits_little (Z.to_nat n) x).
Proof.
  intros Hn Hx.
  unfold to_bytes_little.
  destruct (Z.ltb_spec n 0); [lia |].
  destruct (Z.ltb_spec x 0); [lia |].
  destruct (Z.leb_spec (256 ^ n) x); [lia |].
  reflexivity.
Qed.

Lemma to_bytes_little_negative_size (x n : Z) :
  n < 0 -> to_bytes_little x n = Raise ValueError.
Proof.
  intro Hn.
  unfold to_bytes_little.
  destruct (Z.ltb_spec n 0); [reflexivity | lia].
Qed.

Lemma to_bytes_from_bytes (data : bytes) :
  to_bytes_little (from_bytes_little data) (len data) = Ok data.
Proof.
  rewrite to_bytes_little_fits.
  - unfold len. rewrite Nat2Z.id, digits_little_from_bytes. reflexivity.
  - apply len_nonneg.
  - apply from_bytes_little_range.
Qed.

(** ** Slices *)

Lemma slice_to_app_suffix {A : Type} (a b : list A) :
  0 < len b -> slice_to (a ++ b) (- len b) = a.
Proof.
  intro Hb.
  unfold slice_to, slice_bound.
  rewrite len_app.
  destruct (Z.ltb_spec (- len b) 0); [| lia].
  replace (Z.to_nat (Z.max 0 (len a + len b + - len b))) with (List.length a)
    by (unfold len; lia).
  rewrite firstn_app, firstn_all, Nat.sub_diag.
  apply app_nil_r.
Qed.

Lemma slice_from_app_suffix {A : Type} (a b : list A) :
  0 < len b -> slice_from (a ++ b) (- len b) = b.
Proof.
  intro Hb.
  unfold slice_from, slice_bound.
  rewrite len_app.
  destruct (Z.ltb_spec (- len b) 0); [| lia].
  replace (Z.to_nat (Z.max 0 (len a + len b + - len b))) with (List.length a)
    by (unfold len; lia).
  rewrite skipn_app, skipn_all, Nat.sub_diag.
  reflexivity.
Qed.

Lemma len_slice_to_suffix {A : Type} (data : list A) (a : Z) :
  0 < a <= len data -> len (slice_to data (- a)) = len data - a.
Proof.
  intro Ha.
  unfold slice_to, slice_bound.
  destruct (Z.ltb_spec (- a) 0); [| lia].
  unfold len in *.
  rewrite length_firstn.
  lia.
Qed.

Lemma len_slice_from_suffix {A : Type} (data : list A) (a : Z) :
  0 < a <= len data -> len (slice_from data (- a)) = a.
Proof.
  intro Ha.
  unfold slice_from, slice_bound.
  destruct (Z.ltb_spec (- a) 0); [| lia].
  unfold len in *.
  rewrite length_skipn.
  lia.
Qed.

Lemma slice_to_firstn {A : Type} (data : list A) (n : nat) :
  slice_to data (Z.of_nat n) = firstn n data.
Proof.
  unfold slice_to, slice_bound, len.
  destruct (Z.ltb_spec (Z.of_nat n) 0); [lia |].
  destruct (Nat.le_gt_cases n (List.length data)) as [Hle | Hgt].
  - f_equal. lia.
  - replace (Z.to_nat (Z.min (Z.of_nat n) (Z.of_nat (List.length data))))
      with (List.length data) by lia.
    rewrite !firstn_all2 by lia.
    reflexivity.
Qed.

Lemma slice_firstn_skipn {A : Type} (data : list A) (i n : nat) :
  slice data (Z.of_nat i) (Z.of_nat (i + n)) = firstn n (skipn i data).
Proof.
  unfold slice, slice_bound, len.
  destruct (Z.ltb_spec (Z.of_nat i) 0); [lia |].
  destruct (Z.ltb_spec (Z.of_nat (i + n)) 0); [lia |].
  destruct (Nat.le_gt_cases (List.length data) i) as [Hshort | Hlong].
  - rewrite !skipn_all2 by lia.
    rewrite !firstn_nil.
    reflexivity.
  - replace (Z.to_nat (Z.min (Z.of_nat i) (Z.of_nat (List.length data))))
      with i by lia.
    destruct (Nat.le_gt_cases (i + n) (List.length data)) as [Hle | Hgt].
    + f_equal. lia.
    + replace (Z.to_nat (Z.min (Z.of_nat (i + n)) (Z.of_nat (List.length data))) - i)%nat
        with (List.length (skipn i data)) by (rewrite length_skipn; lia).
      rewrite firstn_all.
      rewrite firstn_all2 by (rewrite length_skipn; lia).
      reflexivity.
Qed.

Lemma slice_whole {A : Type} (data : list A) (j : Z) :
  len data <= j -> slice data 0 (0 + j) = data.
Proof.
  intro Hj.
  pose proof (len_nonneg data) as Hn.
  unfold slice, slice_bound.
  change (0 <? 0) with false.
  cbv iota.
  destruct (Z.ltb_spec (0 + j) 0); [lia |].
  replace (Z.to_nat (Z.min 0 (len data))) with 0%nat by lia.
  replace (Z.to_nat (Z.min (0 + j) (len data)) - 0)%nat with (List.length data)
    by (unfold len in *; lia).
  cbn [skipn].
  apply firstn_all.
Qed.

(** ** OAEP padding *)

Section OaepProperties.
Context {P : Primitives}.

(** The contract of the extendable-output function: a digest of [n]
    bytes has [n] bytes. *)
Hypothesis shake_length :
  forall (data : bytes) (n : nat), List.length (SHAKE256 data n) = n.

Lemma shake_range (data : bytes) (n : Z) :
  0 <= n -> 0 <= from_bytes_little (SHAKE256 data (Z.to_nat n)) < 256 ^ n.
Proof.
  intro Hn.
  pose proof (from_bytes_little_range (SHAKE256 data (Z.to_nat n))) as H.
  unfold len in H.
  rewrite shake_length, Z2Nat.id in H by lia.
  exact H.
Qed.

Lemma getrandbits_value (rand k : Z) :
  0 <= k -> getrandbits rand k = Ok (low_bits rand k).
Proof.
  intro Hk.
  unfold getrandbits.
  destruct (Z.ltb_spec k 0); [lia | reflexivity].
Qed.

Lemma low_bits_range (rand k : Z) :
  0 <= k -> 0 <= low_bits rand k < 2 ^ k.
Proof.
  intro Hk.
  unfold low_bits.
  apply Z.mod_pos_bound, Z.pow_pos_nonneg; lia.
Qed.

Lemma low_bits_fits (rand a : Z) :
  0 <= a -> 0 <= low_bits rand a < 256 ^ a.
Proof.
  intro Ha.
  pose proof (low_bits_range rand a Ha) as Hr.
  rewrite pow256 by lia.
  assert (2 ^ a <= 2 ^ (8 * a)) by (apply Z.pow_le_mono_r; lia).
  lia.
Qed.

(** What [oaep_pad] returns, spelled out. *)
Lemma oaep_pad_value (rand : Z) (m : bytes) (a : Z) :
  0 <= a ->
  let r := low_bits rand a in
  let x := Z.lxor (from_bytes_little
                     (SHAKE256 (digits_little (Z.to_nat a) r) (Z.to_nat (len m))))
                  (from_bytes_little m) in
  let y := Z.lxor (from_bytes_little
                     (SHAKE256 (digits_little (Z.to_nat (len m)) x) (Z.to_nat a)))
                  r in
  oaep_pad rand m a
  = Ok (digits_little (Z.to_nat (len m)) x ++ digits_little (Z.to_nat a) y)
  /\ 0 <= x < 256 ^ len m /\ 0 <= y < 256 ^ a.
Proof.
  intros Ha r x y.
  pose proof (len_nonneg m) as Hm.
  assert (Hr : 0 <= r < 256 ^ a) by (apply low_bits_fits; exact Ha).
  assert (Hx : 0 <= x < 256 ^ len m).
  { apply lxor_range256; [exact Hm | apply shake_range; exact Hm
                          | apply from_bytes_little_range]. }
  assert (Hy : 0 <= y < 256 ^ a).
  { apply lxor_range256; [exact Ha | apply shake_range; exact Ha | exact Hr]. }
  split; [| split; assumption].
  unfold oaep_pad.
  rewrite (getrandbits_value rand a Ha).
  cbn [bind].
  fold r.
  rewrite (to_bytes_little_fits r a Ha Hr).
  cbn [bind].
  fold x.
  rewrite (to_bytes_little_fits x (len m) Hm Hx).
  cbn [bind].
  fold y.
  rewrite (to_bytes_little_fits y a Ha Hy).
  reflexivity.
Qed.

Lemma oaep_round_trip (rand : Z) (m : bytes) (a : Z) :
  0 < a ->
  exists padded,
    oaep_pad rand m a = Ok padded
    /\ len padded = len m + a
    /\ oaep_unpad padded a = Ok m.
Proof.
  intro Ha.
  destruct (oaep_pad_value rand m a ltac:(lia)) as (Hpad & Hx & Hy).
  cbv zeta in Hpad, Hx, Hy.
  set (r := low_bits rand a) in *.
  set (x := Z.lxor _ (from_bytes_little m)) in *.
  set (y := Z.lxor _ r) in *.
  set (X := digits_little (Z.to_nat (len m)) x) in *.
  set (Y := digits_little (Z.to_nat a) y) in *.
  pose proof (len_nonneg m) as Hm.
  assert (HlenX : len X = len m).
  { unfold len, X. rewrite length_digits_little. fold (len m). lia. }
  assert (HlenY : len Y = a).
  { unfold len, Y. rewrite length_digits_little. lia. }
  assert (HX : from_bytes_little X = x).
  { apply from_bytes_digits_little. rewrite Z2Nat.id by lia. exact Hx. }
  assert (HY : from_bytes_little Y = y).
  { apply from_bytes_digits_little. rewrite Z2Nat.id by lia. exact Hy. }
  exists (X ++ Y).
  split; [exact Hpad |].
  split; [rewrite len_app; lia |].
  unfold oaep_unpad.
  rewrite len_app, HlenX, HlenY.
  replace (len m + a - a) with (len m) by lia.
  assert (Hfront : slice_to (X ++ Y) (- a) = X)
    by (rewrite <- HlenY; apply slice_to_app_suffix; lia).
  assert (Hback : slice_from (X ++ Y) (- a) = Y)
    by (rewrite <- HlenY; apply slice_from_app_suffix; lia).
  rewrite Hfront, Hback, HX, HY.
  rewrite (to_bytes_little_fits x (len m) Hm Hx).
  cbn [bind].
  fold X.
  unfold y at 1.
  rewrite lxor_cancel_l.
  rewrite (to_bytes_little_fits r a ltac:(lia) (low_bits_fits rand a ltac:(lia))).
  cbn [bind].
  unfold x at 1.
  rewrite lxor_cancel_l.
  apply to_bytes_from_bytes.
Qed.

(** C2. For every message [m] and every value of the random source,
    [oaep_pad(m, 32)] returns a block of exactly [len(m) + 32] bytes, and
    [oaep_unpad] of that block with the same [append_length] returns
    [m]. *)
Theorem oaep_unpad_pad_32 (rand : Z) (m : bytes) :
  exists padded,
    oaep_pad rand m 32 = Ok padded
    /\ len padded = len m + 32
    /\ oaep_unpad padded 32 = Ok m.
Proof.
  apply oaep_round_trip.
  lia.
Qed.

(** What [oaep_unpad] returns on a block that is long enough. *)
Lemma oaep_unpad_value (data : bytes) (a : Z) :
  0 < a <= len data ->
  exists out, oaep_unpad data a = Ok out /\ len out = len data - a.
Proof.
  intro Ha.
  unfold oaep_unpad.
  set (size := len data - a).
  assert (Hsize : 0 <= size) by (unfold size; lia).
  set (x := from_bytes_little (slice_to data (- a))).
  set (y := from_bytes_little (slice_from data (- a))).
  assert (Hx : 0 <= x < 256 ^ size).
  { pose proof (from_bytes_little_range (slice_to data (- a))) as Hrange.
    rewrite (len_slice_to_suffix data a Ha) in Hrange.
    exact Hrange. }
  assert (Hy : 0 <= y < 256 ^ a).
  { pose proof (from_bytes_little_range (slice_from data (- a))) as Hrange.
    rewrite (len_slice_from_suffix data a Ha) in Hrange.
    exact Hrange. }
  rewrite (to_bytes_little_fits x size Hsize Hx).
  cbn [bind].
  set (x_bytes := digits_little (Z.to_nat size) x).
  set (r := Z.lxor y _).
  assert (Hr : 0 <= r < 256 ^ a).
  { apply lxor_range256; [lia | exact Hy | apply shake_range; lia]. }
  rewrite (to_bytes_little_fits r a ltac:(lia) Hr).
  cbn [bind].
  set (msg := Z.lxor x _).
  assert (Hmsg : 0 <= msg < 256 ^ size).
  { apply lxor_range256; [exact Hsize | exact Hx | apply shake_range; exact Hsize]. }
  rewrite (to_bytes_little_fits msg size Hsize Hmsg).
  eexists; split; [reflexivity |].
  unfold len at 1.
  rewrite length_digits_little.
  lia.
Qed.

Lemma oaep_unpad_short (data : bytes) (a : Z) :
  len data < a -> oaep_unpad data a = Raise ValueError.
Proof.
  intro Ha.
  unfold oaep_unpad.
  rewrite to_bytes_little_negative_size by lia.
  reflexivity.
Qed.

(** C10. With [append_length = 32], [oaep_unpad] returns on every input
    of at least 32 bytes, and its result has [len(data) - 32] bytes; on
    an input of exactly 32 bytes the result is the empty byte string; on
    every shorter input it raises. *)
Theorem oaep_unpad_32_total (data : bytes) :
  (32 <= len data ->
   exists out, oaep_unpad data 32 = Ok out /\ len out = len data - 32)
  /\ (len data = 32 -> oaep_unpad data 32 = Ok [])
  /\ (len data < 32 -> exists e, oaep_unpad data 32 = Raise e).
Proof.
  split; [| split].
  - intro Hlen.
    apply oaep_unpad_value; lia.
  - intro Hlen.
    destruct (oaep_unpad_value data 32 ltac:(lia)) as (out & Hout & Hsize).
    rewrite Hout.
    destruct out as [| b out]; [reflexivity |].
    rewrite len_cons in Hsize.
    pose proof (len_nonneg out).
    lia.
  - intro Hlen.
    exists ValueError.
    apply oaep_unpad_short; exact Hlen.
Qed.

(** The nonce that [oaep_unpad] would recover from a padded block is the
    value drawn by [getrandbits]. *)
Lemma embedded_nonce_of_pad (rand : Z) (m padded : bytes) (a : Z) :
  0 < a ->
  oaep_pad rand m a = Ok padded ->
  embedded_nonce padded a = low_bits rand a.
Proof.
  intros Ha Hpad.
  destruct (oaep_pad_value rand m a ltac:(lia)) as (Hval & Hx & Hy).
  cbv zeta in Hval, Hx, Hy.
  rewrite Hval in Hpad.
  injection Hpad as <-.
  set (x := Z.lxor _ (from_bytes_little m)) in *.
  set (y := Z.lxor _ (low_bits rand a)) in *.
  set (X := digits_little (Z.to_nat (len m)) x) in *.
  set (Y := digits_little (Z.to_nat a) y) in *.
  assert (HlenY : len Y = a).
  { unfold len, Y. rewrite length_digits_little. lia. }
  unfold embedded_nonce.
  assert (Hfront : slice_to (X ++ Y) (- a) = X)
    by (rewrite <- HlenY; apply slice_to_app_suffix; lia).
  assert (Hback : slice_from (X ++ Y) (- a) = Y)
    by (rewrite <- HlenY; apply slice_from_app_suffix; lia).
  rewrite Hfront, Hback.
  unfold Y.
  rewrite from_bytes_digits_little by (rewrite Z2Nat.id by lia; exact Hy).
  unfold y.
  apply lxor_cancel_l.
Qed.

Lemma embedded_nonce_below_2_32 (rand : Z) (m padded : bytes) :
  oaep_pad rand m 32 = Ok padded ->
  0 <= embedded_nonce padded 32 < 2 ^ 32.
Proof.
  intro Hpad.
  rewrite (embedded_nonce_of_pad rand m padded 32 ltac:(lia) Hpad).
  apply low_bits_range.
  lia.
Qed.

End OaepProperties.

(** C5. The nonce of [oaep_pad] with [append_length = 32] is
    [getrandbits(32)]: an integer below [2^32], whatever the random
    source returns, so that two sources that agree on their low 32 bits
    give the same padded block.  The nonce therefore ranges over
    [0 .. 2^32 - 1], four bytes of a 32-byte field, and not over
    [0 .. 2^256 - 1]. *)
Theorem oaep_pad_nonce_is_32_bits {P : Primitives} (rand : Z) (m : bytes) :
  (exists r, getrandbits rand 32 = Ok r /\ 0 <= r < 2 ^ 32)
  /\ 2 ^ 32 < 2 ^ 256
  /\ oaep_pad rand m 32 = oaep_pad (rand mod 2 ^ 32) m 32.
Proof.
  split; [| split].
  - exists (low_bits rand 32).
    split; [reflexivity |].
    unfold low_bits. apply Z.mod_pos_bound. reflexivity.
  - reflexivity.
  - unfold oaep_pad, getrandbits, low_bits.
    change (32 <? 0) with false.
    cbv iota.
    rewrite Z.mod_mod by discriminate.
    reflexivity.
Qed.

(** ** The block encoder *)

Lemma block_num_loop_value (block : bytes) (i acc : Z) :
  0 <= i ->
  block_num_loop block i acc = acc + 256 ^ i * from_bytes_little block.
Proof.
  revert i acc.
  induction block as [| char rest IH]; intros i acc Hi.
  - cbn [block_num_loop from_bytes_little]. lia.
  - cbn [block_num_loop from_bytes_little].
    rewrite IH by lia.
    rewrite Z.pow_add_r by lia.
    change (256 ^ 1) with 256.
    ring.
Qed.

Lemma from_bytes_little_snoc (data : bytes) (b : byte) :
  from_bytes_little (data ++ [b])
  = from_bytes_little data + 256 ^ len data * byte_val b.
Proof.
  induction data as [| c rest IH].
  - cbn [app from_bytes_little]. change (256 ^ len []) with 1. lia.
  - cbn [app from_bytes_little].
    rewrite IH, len_cons, Z.pow_add_r by (try apply len_nonneg; lia).
    change (256 ^ 1) with 256.
    ring.
Qed.

Lemma from_bytes_big_acc (data : bytes) (acc : Z) :
  fold_left (fun acc b => 256 * acc + byte_val b) data acc
  = from_bytes_little (rev data) + 256 ^ len data * acc.
Proof.
  revert acc.
  induction data as [| b rest IH]; intro acc.
  - cbn [fold_left rev from_bytes_little]. change (256 ^ len []) with 1. lia.
  - cbn [fold_left rev].
    rewrite IH, from_bytes_little_snoc, len_cons.
    rewrite Z.pow_add_r by (try apply len_nonneg; lia).
    replace (len (rev rest)) with (len rest) by (unfold len; rewrite length_rev; reflexivity).
    change (256 ^ 1) with 256.
    ring.
Qed.

Lemma from_bytes_little_rev (data : bytes) :
  from_bytes_little (rev data) = from_bytes_big data.
Proof.
  unfold from_bytes_big.
  rewrite from_bytes_big_acc.
  lia.
Qed.

Lemma from_bytes_big_range (data : bytes) :
  0 <= from_bytes_big data < 256 ^ len data.
Proof.
  rewrite <- from_bytes_little_rev.
  replace (len data) with (len (rev data))
    by (unfold len; rewrite length_rev; reflexivity).
  apply from_bytes_little_range.
Qed.

(** A message that is not empty and not longer than the block size is
    one block: its big-endian reading. *)
Lemma get_blocks_single (message : bytes) (block_size : Z) :
  0 < len message <= block_size ->
  get_blocks message block_size = Ok [from_bytes_big message].
Proof.
  intro Hlen.
  unfold get_blocks, range.
  destruct (Z.eqb_spec block_size 0); [lia |].
  destruct (Z.ltb_spec 0 block_size); [| lia].
  replace ((len message - 0 + block_size - 1) / block_size) with 1.
  2:{ apply Z.div_unique with (r := len message - 1); lia. }
  change (Z.to_nat (Z.max 0 1)) with 1%nat.
  cbn [bind seq map].
  do 2 f_equal.
  rewrite block_num_loop_value by lia.
  change (256 ^ 0) with 1.
  rewrite <- from_bytes_little_rev.
  replace (0 + Z.of_nat 0 * block_size) with 0 by lia.
  rewrite slice_whole by lia.
  lia.
Qed.

(** C7. For every 64-byte digest [h], [get_blocks(h, 1024)] is a list of
    exactly one block, and the block is [h] read as one big-endian
    base-256 integer. *)
Theorem get_blocks_digest_is_big_endian (h : bytes) :
  List.length h = 64%nat ->
  get_blocks h 1024 = Ok [from_bytes_big h].
Proof.
  intro Hlen.
  apply get_blocks_single.
  unfold len.
  rewrite Hlen.
  lia.
Qed.

(** ** The armor parser *)

Lemma strip_prefix_Some (l s s' : string) :
  strip_prefix l s = Some s' -> s = (l ++ s')%string.
Proof.
  revert s.
  induction l as [| c l IH]; intros s H.
  - cbn in H. injection H as ->. reflexivity.
  - destruct s as [| d s]; cbn in H; [discriminate |].
    destruct (Ascii.eqb_spec c d) as [-> | Hne]; [| discriminate].
    cbn [append].
    f_equal.
    apply IH; exact H.
Qed.

Lemma match_plus_sound (R : Type) (p : ascii -> bool) (s : string)
  (cont : string -> option R) (res : R) :
  match_plus R p s cont = Some res ->
  exists run s',
    s = (run ++ s')%string /\ run <> EmptyString
    /\ all_chars p run = true /\ cont s' = Some res.
Proof.
  induction s as [| c s IH]; cbn [match_plus]; [discriminate |].
  destruct (p c) eqn:Hc; [| discriminate].
  destruct (match_plus R p s cont) as [res' |] eqn:Hrest.
  - intro H; injection H as ->.
    destruct (IH eq_refl) as (run & s' & -> & _ & Hall & Hcont).
    exists (String c run), s'.
    cbn [append all_chars].
    rewrite Hc, Hall.
    repeat split; [discriminate | exact Hcont].
  - intro Hcont.
    exists (String c EmptyString), s.
    cbn [append all_chars].
    rewrite Hc.
    repeat split; [discriminate | exact Hcont].
Qed.

(** Every answer of the matcher comes from a way to consume a prefix of
    the text that the expression denotes. *)
Lemma match_regex_sound (R : Type) (r : regex) :
  forall (s : string) (g : list string)
         (cont : string -> list string -> option R) (res : R),
    match_regex R r s g cont = Some res ->
    exists s' g', denotes r s s' g g' /\ cont s' g' = Some res.
Proof.
  induction r as [| l | p | p | r1 IH1 r2 IH2 | r1 IH1 r2 IH2 | r' IH];
    intros s g cont res H; cbn [match_regex] in H; cbn [denotes].
  - exists s, g. auto.
  - destruct (strip_prefix l s) as [s' |] eqn:Hl; [| discriminate].
    exists s', g.
    split; [split; [apply strip_prefix_Some; exact Hl | reflexivity] | exact H].
  - destruct s as [| c s']; [discriminate |].
    destruct (p c) eqn:Hc; [| discriminate].
    exists s', g.
    split; [split; [exists c; auto | reflexivity] | exact H].
  - apply match_plus_sound in H as (run & s' & Hs & Hne & Hall & Hcont).
    exists s', g.
    split; [split; [exists run; auto | reflexivity] | exact Hcont].
  - apply IH1 in H as (s1 & g1 & H1 & H).
    apply IH2 in H as (s' & g' & H2 & H).
    exists s', g'.
    split; [exists s1, g1; auto | exact H].
  - destruct (match_regex R r1 s g cont) as [res1 |] eqn:Hfirst.
    + injection H as ->.
      apply IH1 in Hfirst as (s' & g' & H1 & Hcont).
      exists s', g'. auto.
    + apply IH2 in H as (s' & g' & H2 & Hcont).
      exists s', g'. auto.
  - apply IH in H as (s' & g1 & H1 & Hcont).
    exists s', (g1 ++ [consumed s s']).
    split; [exists g1; auto | exact Hcont].
Qed.

Lemma length_append (a b : string) :
  String.length (a ++ b) = (String.length a + String.length b)%nat.
Proof.
  induction a as [| c a IH]; cbn [append String.length]; [| rewrite IH];
    reflexivity.
Qed.

Lemma substring_prefix (a b : string) :
  substring 0 (String.length a) (a ++ b) = a.
Proof.
  induction a as [| c a IH]; cbn [append String.length substring].
  - destruct b; reflexivity.
  - rewrite IH. reflexivity.
Qed.

Lemma consumed_append (a b : string) : consumed (a ++ b) b = a.
Proof.
  unfold consumed.
  rewrite length_append.
  replace (String.length a + String.length b - String.length b)%nat
    with (String.length a) by lia.
  apply substring_prefix.
Qed.

Lemma append_assoc (a b c : string) :
  ((a ++ b) ++ c = a ++ (b ++ c))%string.
Proof.
  induction a as [| x a IH]; cbn [append]; [| rewrite IH]; reflexivity.
Qed.

(** What [strip_headers] does guarantee about an accepted body: a
    non-empty run of characters of the class [[a-zA-Z0-9\n\-_=]]
    followed by one more character, which is any character but a
    newline. *)
Lemma strip_headers_body_shape (pem_text header body : string) :
  strip_headers pem_text = (Some header, Some body) ->
  exists run last,
    body = (run ++ String last EmptyString)%string
    /\ run <> EmptyString
    /\ all_chars body_class run = true
    /\ last <> newline.
Proof.
  unfold strip_headers, re_match.
  destruct (match_regex (list string) armor_pattern pem_text []
              (fun _ groups => Some groups)) as [groups |] eqn:Hm;
    [| discriminate].
  apply match_regex_sound in Hm as (s' & g' & Hden & Hcont).
  injection Hcont as <-.
  intro Hret.
  unfold armor_pattern, cat in Hden.
  cbn [fold_right denotes] in Hden.
  destruct Hden as (s1 & g1 & (_ & ->) & Hden).
  destruct Hden as (s2 & g2 & (_ & ->) & Hden).
  destruct Hden as (s3 & g3 & (g3' & Hlabel & ->) & Hden).
  destruct Hden as (s4 & g4 & (_ & ->) & Hden).
  destruct Hden as (s5 & g5 & (_ & ->) & Hden).
  destruct Hden as (s6 & g6 & (_ & ->) & Hden).
  destruct Hden as (s7 & g7 & (g7' & Hbody & ->) & Hden).
  destruct Hden as (s8 & g8 & (_ & ->) & Hden).
  destruct Hden as (s9 & g9 & (_ & ->) & Hden).
  destruct Hden as (s10 & g10 & (_ & ->) & Hden).
  destruct Hden as (s11 & g11 & Htail & Hden).
  destruct Hden as (s12 & g12 & (_ & ->) & Hden).
  destruct Hden as (s13 & g13 & (_ & ->) & _ & ->).
  assert (Hg11 : g11 = g7' ++ [consumed s6 s7]).
  { destruct Htail as (sa & ga & [[(_ & ->) | (_ & ->)] | (_ & ->)]
                       & [(_ & ->) | (_ & ->)]); reflexivity. }
  subst g11.
  destruct Hbody as (sb & gb & ((run & -> & Hne & Hall) & ->)
                     & ((last & -> & Hlast) & ->)).
  assert (Hg3 : g3' = []).
  { clear - Hlabel.
    destruct Hlabel as (sa & ga & (_ & ->) & sb & gb & Hopt & Hkind).
    destruct Hopt as [[(_ & ->) | (_ & ->)] | (_ & ->)];
      destruct Hkind as [(_ & ->) | (_ & ->)]; reflexivity. }
  subst g3'.
  cbn [app nth_error] in Hret.
  injection Hret as _ Hb.
  exists run, last.
  split; [| split; [exact Hne | split; [exact Hall |]]].
  - rewrite <- Hb.
    replace (run ++ String last s7)%string
      with ((run ++ String last EmptyString) ++ s7)%string
      by (rewrite append_assoc; reflexivity).
    apply consumed_append.
  - unfold not_newline in Hlast.
    intros ->.
    rewrite Ascii.eqb_refl in Hlast.
    discriminate.
Qed.

Lemma body_class_is_armor_body_char (c : ascii) :
  body_class c = armor_body_char c.
Proof.
  destruct c as [[] [] [] [] [] [] [] []]; reflexivity.
Qed.

Lemma forallb_body_append (run : string) (last : ascii) :
  all_chars body_class run = true ->
  forallb armor_body_char
          (list_ascii_of_string (run ++ String last EmptyString))
  = armor_body_char last.
Proof.
  induction run as [| c run IH]; cbn [append list_ascii_of_string forallb all_chars].
  - intros _. apply andb_true_r.
  - intro H.
    apply andb_true_iff in H as (Hc & Hrun).
    rewrite <- body_class_is_armor_body_char, Hc, IH by exact Hrun.
    reflexivity.
Qed.

(** An accepted body is a full match of [[A-Za-z0-9\-_=\n]+] exactly
    when its last character is in that class. *)
Lemma strip_headers_body_ok (pem_text header body : string) :
  strip_headers pem_text = (Some header, Some body) ->
  exists run last,
    body = (run ++ String last EmptyString)%string
    /\ armor_body_ok body = armor_body_char last.
Proof.
  intro H.
  destruct (strip_headers_body_shape _ _ _ H) as (run & last & -> & Hne & Hall & _).
  exists run, last.
  split; [reflexivity |].
  unfold armor_body_ok.
  destruct run as [| c run]; [contradiction Hne; reflexivity |].
  cbn [append].
  change (String c (run ++ String last EmptyString))
    with (String c run ++ String last EmptyString)%string.
  apply forallb_body_append; exact Hall.
Qed.

(** C8. [strip_headers] accepts a text whose body ends in a character
    outside the base64url alphabet: on the text below it returns the
    header ["BEGIN FINCRYPT MESSAGE"] and the body ["A!"], which is not a
    full match of [[A-Za-z0-9\-_=\n]+]. *)
Theorem strip_headers_accepts_foreign_last_char :
  strip_headers
    ("- BEGIN FINCRYPT MESSAGE -" ++ String newline "A!"
     ++ String newline "- END FINCRYPT MESSAGE -")
  = (Some "BEGIN FINCRYPT MESSAGE"%string, Some "A!"%string)
  /\ armor_body_ok "A!" = false.
Proof.
  split; reflexivity.
Qed.

(** ** Keyfiles *)

Lemma public_key_eta (key : public_key) :
  {| kx := kx key; ky := ky key;
     pub_name := pub_name key; pub_email := pub_email key |} = key.
Proof. destruct key; reflexivity. Qed.

Lemma private_key_eta (key : private_key) :
  {| k := k key; priv_name := priv_name key; priv_email := priv_email key |} = key.
Proof. destruct key; reflexivity. Qed.

Section Keyfiles.
Context {P : Primitives}.

Lemma read_public_key_spec (text : string) (pk : public_key) :
  read_public_key text = Ok pk <->
  exists body raw der,
    strip_headers text = (Some "BEGIN FINCRYPT PUBLIC KEY"%string, Some body)
    /\ urlsafe_b64decode (encode_utf8 body) = Ok raw
    /\ rs_decode 30 raw = Ok der
    /\ decode_public_key der = Ok pk.
Proof.
  unfold read_public_key.
  split.
  - destruct (strip_headers text) as [[header |] [body |]]; try discriminate.
    destruct (String.eqb_spec header "BEGIN FINCRYPT PUBLIC KEY") as [-> | Hne];
      cbn [negb]; [| discriminate].
    intro H.
    apply bind_Ok in H as (raw & Hraw & H).
    apply bind_Ok in H as (der & Hder & H).
    apply bind_Ok in H as (key & Hkey & H).
    rewrite public_key_eta in H.
    injection H as <-.
    exists body, raw, der.
    repeat split; assumption.
  - intros (body & raw & der & -> & Hraw & Hder & Hkey).
    rewrite String.eqb_refl.
    cbn [negb].
    rewrite Hraw. cbn [bind].
    rewrite Hder. cbn [bind].
    rewrite Hkey. cbn [bind].
    rewrite public_key_eta.
    reflexivity.
Qed.

Lemma read_private_key_spec (text : string) (sk : private_key) :
  read_private_key text = Ok sk <->
  exists body raw,
    strip_headers text = (Some "BEGIN FINCRYPT PRIVATE KEY"%string, Some body)
    /\ urlsafe_b64decode (encode_utf8 body) = Ok raw
    /\ decode_private_key raw = Ok sk.
Proof.
  unfold read_private_key.
  split.
  - destruct (strip_headers text) as [[header |] [body |]]; try discriminate.
    destruct (String.eqb_spec header "BEGIN FINCRYPT PRIVATE KEY") as [-> | Hne];
      cbn [negb]; [| discriminate].
    intro H.
    apply bind_Ok in H as (raw & Hraw & H).
    apply bind_Ok in H as (key & Hkey & H).
    rewrite private_key_eta in H.
    injection H as <-.
    exists body, raw.
    repeat split; assumption.
  - intros (body & raw & -> & Hraw & Hkey).
    rewrite String.eqb_refl.
    cbn [negb].
    rewrite Hraw. cbn [bind].
    rewrite Hkey. cbn [bind].
    rewrite private_key_eta.
    reflexivity.
Qed.

(** C9. [read_public_key] succeeds exactly when the armored body, after
    base64 decoding, passes Reed-Solomon decoding with 30 parity symbols
    and the decoded bytes pass the ASN.1 decoder; [read_private_key]
    hands the base64-decoded bytes to the ASN.1 decoder as they are, and
    its result does not depend on the Reed-Solomon decoder at all. *)
Theorem keyfile_framing_is_asymmetric (text : string) :
  (forall pk,
     read_public_key text = Ok pk <->
     exists body raw der,
       strip_headers text = (Some "BEGIN FINCRYPT PUBLIC KEY"%string, Some body)
       /\ urlsafe_b64decode (encode_utf8 body) = Ok raw
       /\ rs_decode 30 raw = Ok der
       /\ decode_public_key der = Ok pk)
  /\ (forall sk,
        read_private_key text = Ok sk <->
        exists body raw,
          strip_headers text = (Some "BEGIN FINCRYPT PRIVATE KEY"%string, Some body)
          /\ urlsafe_b64decode (encode_utf8 body) = Ok raw
          /\ decode_private_key raw = Ok sk)
  /\ (forall dec,
        @read_private_key (with_rs_decode P dec) text = @read_private_key P text).
Proof.
  split; [| split].
  - intro pk. apply read_public_key_spec.
  - intro sk. apply read_private_key_spec.
  - intro dec. reflexivity.
Qed.

End Keyfiles.

(** The public reader does depend on the Reed-Solomon decoder: with a
    decoder that rejects everything, a keyfile that was readable is no
    longer so. *)
Lemma read_public_key_needs_rs_decode :
  @read_public_key Toy.primitives Toy.alice_public
  = Ok {| kx := 120; ky := 1; pub_name := []; pub_email := [] |}
  /\ @read_public_key
       (with_rs_decode Toy.primitives (fun _ _ => Raise (LibraryError "reedsolomon")))
       Toy.alice_public
     = Raise (LibraryError "reedsolomon")
  /\ @read_private_key
       (with_rs_decode Toy.primitives (fun _ _ => Raise (LibraryError "reedsolomon")))
       Toy.alice_private
     = Ok {| k := 15682; priv_name := []; priv_email := [] |}.
Proof.
  repeat split; vm_compute; reflexivity.
Qed.

(** ** Decryption and verification of arbitrary blobs *)

Section DecryptAndVerify.
Context {P : Primitives}.

(** C4. With keyfiles that are read without error, a blob on which the
    outer Reed-Solomon decoding raises, or whose Reed-Solomon payload
    makes the envelope decoder raise, makes [decrypt_and_verify] return
    [(None, False)]; it does not raise. *)
Theorem decrypt_and_verify_rejects_malformed_blob
  (blob : bytes) (sender_text private_text : string)
  (dk : private_key) (sk : public_key) :
  read_private_key private_text = Ok dk ->
  read_public_key sender_text = Ok sk ->
  ((exists e, rs_decode 8 blob = Raise e)
   \/ (exists framed e, rs_decode 8 blob = Ok framed
                        /\ decode_message framed = Raise e)) ->
  decrypt_and_verify blob sender_text private_text = Ok (None, false).
Proof.
  intros Hpriv Hpub Hbad.
  unfold decrypt_and_verify.
  rewrite Hpriv, Hpub.
  cbn [try_except bind].
  destruct Hbad as [(e & Hrs) | (framed & e & Hrs & Hder)].
  - rewrite Hrs. reflexivity.
  - rewrite Hrs. cbn [bind]. rewrite Hder. reflexivity.
Qed.

Lemma authenticate_None (kx ky : Z) (sig : list Z) :
  hash_rejects_None ->
  exists e, authenticate_message kx ky None sig = Raise e.
Proof.
  intros (e & He).
  exists e.
  unfold authenticate_message, sha3_512_digest.
  rewrite He.
  reflexivity.
Qed.

(** What the code does guarantee about a missing plaintext.
    [decrypt_and_verify] has no test of its own for it: after a failed
    decryption it calls [authenticate_message] with [None] inside a
    [try], and what guards the flag is the hash constructor raising on
    [None].  Provided that hashing [None] raises, every pair
    [(plaintext, verified)] returned by [decrypt_and_verify] with
    [verified] true has a plaintext that is not [None]; and whenever the
    keyfiles and the envelope are read and [decrypt_message] raises, the
    pair returned is [(None, False)]. *)
Theorem verified_implies_plaintext
  (blob : bytes) (sender_text private_text : string) :
  hash_rejects_None ->
  (forall plaintext verified,
     decrypt_and_verify blob sender_text private_text = Ok (plaintext, verified) ->
     verified = true -> plaintext <> None)
  /\ (forall dk sk env e,
        read_private_key private_text = Ok dk ->
        read_public_key sender_text = Ok sk ->
        open_envelope blob = Ok env ->
        decrypt_message (k dk) (env_key env) (env_message env) = Raise e ->
        decrypt_and_verify blob sender_text private_text = Ok (None, false)).
Proof.
  intro Hnone.
  split.
  - intros plaintext verified Hret Hver.
    unfold decrypt_and_verify in Hret.
    destruct (read_private_key private_text) as [dk | e1]; [| discriminate].
    destruct (read_public_key sender_text) as [sk | e2]; [| discriminate].
    cbn [try_except bind] in Hret.
    fold (open_envelope blob) in Hret.
    destruct (open_envelope blob) as [env | e3].
    + destruct (decrypt_message (k dk) (env_key env) (env_message env))
        as [pt | e4].
      * injection Hret as <- _. discriminate.
      * destruct (authenticate_None (kx sk) (ky sk) (env_signature env) Hnone)
          as (e5 & Hauth).
        rewrite Hauth in Hret.
        injection Hret as _ <-.
        discriminate.
    + injection Hret as _ <-. discriminate.
  - intros dk sk env e Hpriv Hpub Henv Hdec.
    unfold decrypt_and_verify.
    rewrite Hpriv, Hpub.
    cbn [try_except bind].
    fold (open_envelope blob).
    rewrite Henv, Hdec.
    destruct (authenticate_None (kx sk) (ky sk) (env_signature env) Hnone)
      as (e5 & Hauth).
    rewrite Hauth.
    reflexivity.
Qed.

(** For every primitive layer: after a failed decryption the pair
    returned is [(None, verified)], and [verified] is what
    [authenticate_message] answers for the plaintext [None], false when
    it raises.  Nothing else stands between a missing plaintext and a
    true flag. *)
Lemma failed_decryption_flag
  (blob : bytes) (sender_text private_text : string)
  (dk : private_key) (sk : public_key) (env : fincrypt_message) (e : exn) :
  read_private_key private_text = Ok dk ->
  read_public_key sender_text = Ok sk ->
  open_envelope blob = Ok env ->
  decrypt_message (k dk) (env_key env) (env_message env) = Raise e ->
  decrypt_and_verify blob sender_text private_text
  = Ok (None,
        match authenticate_message (kx sk) (ky sk) None (env_signature env) with
        | Ok verified => verified
        | Raise _ => false
        end).
Proof.
  intros Hpriv Hpub Henv Hdec.
  unfold decrypt_and_verify.
  rewrite Hpriv, Hpub.
  cbn [try_except bind].
  fold (open_envelope blob).
  rewrite Henv, Hdec.
  destruct (authenticate_message (kx sk) (ky sk) None (env_signature env));
    reflexivity.
Qed.

End DecryptAndVerify.

(** ** Hybrid encryption and the round trip *)

Lemma str_int_is_decimal (n : Z) :
  option_map Z.of_int (NilZero.int_of_string (str_int n)) = Some n.
Proof.
  unfold str_int.
  rewrite NilZero.isi.
  - cbn [option_map]. rewrite DecimalZ.of_to. reflexivity.
  - destruct n as [| p | p]; cbn; try discriminate.
    intro H; injection H as H.
    exact (DecimalPos.Unsigned.to_uint_nonnil p H).
  - destruct n as [| p | p]; cbn; try discriminate.
    intro H; injection H as H.
    exact (DecimalPos.Unsigned.to_uint_nonnil p H).
Qed.

Lemma slice_key (key : bytes) : slice_to key 32 = aes_key_of key.
Proof. exact (slice_to_firstn key 32). Qed.

Lemma slice_iv (key : bytes) : slice key 32 48 = iv_of key.
Proof. exact (slice_firstn_skipn key 32 16). Qed.

Section Hybrid.
Context {P : Primitives}.

Lemma encrypt_message_key_material (e : entropy) (kx ky : Z) (m : bytes) :
  encrypt_message e kx ky m
  = ('(R, sx) <- ecies_exchange (ecies_entropy e) kx ky ;;
     mode <- AESModeOfOperationCBC (aes_key_of (key_material sx))
                                   (iv_of (key_material sx)) ;;
     padded <- oaep_pad (oaep_entropy e) m 32 ;;
     blocks <- Encrypter_feed mode padded ;;
     Ok ((fst R, snd R), blocks)).
Proof.
  unfold encrypt_message, key_material.
  destruct (ecies_exchange (ecies_entropy e) kx ky) as [[R sx] | err];
    [| reflexivity].
  cbn [bind].
  rewrite slice_key, slice_iv.
  reflexivity.
Qed.

Lemma decrypt_message_key_material (k rx ry : Z) (rest : list Z) (c : bytes) :
  decrypt_message k (rx :: ry :: rest) c
  = (sx <- ecies_recover rx ry k ;;
     mode <- AESModeOfOperationCBC (aes_key_of (key_material sx))
                                   (iv_of (key_material sx)) ;;
     plain <- Decrypter_feed mode c ;;
     oaep_unpad plain 32).
Proof.
  unfold decrypt_message, key_material, index.
  cbn [nth_error bind].
  destruct (ecies_recover rx ry k) as [sx | err]; [| reflexivity].
  cbn [bind].
  rewrite slice_key, slice_iv.
  reflexivity.
Qed.

(** The contracts of the primitive layer. *)
Variable corresponds : Z -> Z -> Z -> Prop.

Hypothesis sha_length :
  forall data : bytes, List.length (SHA3_512 data) = 64%nat.

Hypothesis shake_length :
  forall (data : bytes) (n : nat), List.length (SHAKE256 data n) = n.

Hypothesis aes_round_trip :
  forall key iv : bytes,
    List.length key = 32%nat -> List.length iv = 16%nat ->
    exists mode,
      AESModeOfOperationCBC key iv = Ok mode
      /\ forall plain, exists cipher,
           Encrypter_feed mode plain = Ok cipher
           /\ Decrypter_feed mode cipher = Ok plain.

Hypothesis ecies_agree :
  forall u k kx ky : Z,
    corresponds k kx ky ->
    exists R sx,
      ecies_exchange u kx ky = Ok (R, sx)
      /\ ecies_recover (fst R) (snd R) k = Ok sx.

Hypothesis ecdsa_valid :
  forall u k kx ky num : Z,
    corresponds k kx ky -> 0 <= num < 2 ^ 512 ->
    exists r s,
      ecdsa_sign u num k = Ok (r, s)
      /\ ecdsa_validate r s num kx ky = Ok true.

Hypothesis der_round_trip :
  forall env : fincrypt_message,
    exists encoded, encode_der env = Ok encoded /\ decode_message encoded = Ok env.

Hypothesis rs_round_trip :
  forall data : bytes,
    exists framed, rs_encode 8 data = Ok framed /\ rs_decode 8 framed = Ok data.

Lemma key_material_lengths (sx : Z) :
  List.length (aes_key_of (key_material sx)) = 32%nat
  /\ List.length (iv_of (key_material sx)) = 16%nat.
Proof.
  unfold aes_key_of, iv_of, key_material.
  rewrite !length_firstn, length_skipn, sha_length.
  split; reflexivity.
Qed.

(** C6. [encrypt_message] and [decrypt_message] both build the AES-CBC
    mode from [K = SHA3-512(utf8(str(S.x)))], with the key [K[0..32]] and
    the IV [K[32..48]], 32 and 16 bytes; and when the private scalar
    corresponds to the public point that was encrypted to, the shared
    x-coordinate, hence the key and the IV, are the same on both
    sides. *)
Theorem symmetric_key_material_agrees :
  (forall e kx ky m,
     encrypt_message e kx ky m
     = ('(R, sx) <- ecies_exchange (ecies_entropy e) kx ky ;;
        mode <- AESModeOfOperationCBC (aes_key_of (key_material sx))
                                      (iv_of (key_material sx)) ;;
        padded <- oaep_pad (oaep_entropy e) m 32 ;;
        blocks <- Encrypter_feed mode padded ;;
        Ok ((fst R, snd R), blocks)))
  /\ (forall k rx ry rest c,
        decrypt_message k (rx :: ry :: rest) c
        = (sx <- ecies_recover rx ry k ;;
           mode <- AESModeOfOperationCBC (aes_key_of (key_material sx))
                                         (iv_of (key_material sx)) ;;
           plain <- Decrypter_feed mode c ;;
           oaep_unpad plain 32))
  /\ (forall sx,
        List.length (aes_key_of (key_material sx)) = 32%nat
        /\ List.length (iv_of (key_material sx)) = 16%nat
        /\ option_map Z.of_int (NilZero.int_of_string (str_int sx)) = Some sx)
  /\ (forall e k kx ky m c,
        corresponds k kx ky ->
        exists R sx,
          encrypt_message e kx ky m
          = (mode <- AESModeOfOperationCBC (aes_key_of (key_material sx))
                                           (iv_of (key_material sx)) ;;
             padded <- oaep_pad (oaep_entropy e) m 32 ;;
             blocks <- Encrypter_feed mode padded ;;
             Ok ((fst R, snd R), blocks))
          /\ decrypt_message k [fst R; snd R] c
             = (mode <- AESModeOfOperationCBC (aes_key_of (key_material sx))
                                              (iv_of (key_material sx)) ;;
                plain <- Decrypter_feed mode c ;;
                oaep_unpad plain 32)).
Proof.
  split; [| split; [| split]].
  - apply encrypt_message_key_material.
  - apply decrypt_message_key_material.
  - intro sx.
    destruct (key_material_lengths sx) as (Hkey & Hiv).
    repeat split; [exact Hkey | exact Hiv | apply str_int_is_decimal].
  - intros e k kx ky m c Hcorr.
    destruct (ecies_agree (ecies_entropy e) k kx ky Hcorr) as (R & sx & Hex & Hrec).
    exists R, sx.
    rewrite encrypt_message_key_material, decrypt_message_key_material.
    rewrite Hex, Hrec.
    split; reflexivity.
Qed.

Lemma digest_block (m : bytes) :
  get_blocks (SHA3_512 m) 1024 = Ok [from_bytes_big (SHA3_512 m)]
  /\ 0 <= from_bytes_big (SHA3_512 m) < 2 ^ 512.
Proof.
  split.
  - apply get_blocks_single.
    unfold len. rewrite sha_length. lia.
  - pose proof (from_bytes_big_range (SHA3_512 m)) as H.
    unfold len in H. rewrite sha_length in H.
    exact H.
Qed.

Lemma sign_then_authenticate (u k kx ky : Z) (m : bytes) :
  corresponds k kx ky ->
  exists sig,
    sign_message u k m = Ok sig
    /\ authenticate_message kx ky (Some m) [fst sig; snd sig] = Ok true.
Proof.
  intro Hcorr.
  destruct (digest_block m) as (Hblock & Hrange).
  destruct (ecdsa_valid u k kx ky _ Hcorr Hrange) as (r & s & Hsign & Hval).
  exists (r, s).
  unfold sign_message, authenticate_message, sha3_512_digest.
  cbn [bind].
  rewrite Hblock.
  cbn [bind index nth_error fst snd].
  unfold sign_number, validate_number.
  split; assumption.
Qed.

Lemma encrypt_then_decrypt (e : entropy) (k kx ky : Z) (m : bytes) :
  corresponds k kx ky ->
  exists encrypted_key blocks,
    encrypt_message e kx ky m = Ok (encrypted_key, blocks)
    /\ decrypt_message k [fst encrypted_key; snd encrypted_key] blocks = Ok m.
Proof.
  intro Hcorr.
  destruct (ecies_agree (ecies_entropy e) k kx ky Hcorr) as (R & sx & Hex & Hrec).
  destruct (key_material_lengths sx) as (Hkey & Hiv).
  destruct (aes_round_trip _ _ Hkey Hiv) as (mode & Hmode & Hfeed).
  destruct (oaep_round_trip shake_length (oaep_entropy e) m 32 ltac:(lia))
    as (padded & Hpad & _ & Hunpad).
  destruct (Hfeed padded) as (cipher & Henc & Hdec).
  exists (fst R, snd R), cipher.
  rewrite encrypt_message_key_material, decrypt_message_key_material.
  cbn [fst snd].
  rewrite Hex, Hrec.
  cbn [bind].
  rewrite Hmode.
  cbn [bind].
  rewrite Hpad, Hdec.
  cbn [bind].
  rewrite Henc.
  split; [reflexivity | exact Hunpad].
Qed.

(** C1. For keyfiles that are read without error and whose private
    scalars correspond to their public points, for every message [m]
    (of any length, so also of at most [2^20] bytes) and every outcome of
    the random draws, [encrypt_and_sign] to B signed by A returns a blob,
    and [decrypt_and_verify] of that blob with A's public and B's private
    keyfile returns [(m, True)]. *)
Theorem decrypt_and_verify_inverts_encrypt_and_sign
  (e : entropy) (m : bytes)
  (A_pub A_priv B_pub B_priv : string)
  (a_pk b_pk : public_key) (a_sk b_sk : private_key) :
  read_public_key A_pub = Ok a_pk ->
  read_private_key A_priv = Ok a_sk ->
  corresponds (k a_sk) (kx a_pk) (ky a_pk) ->
  read_public_key B_pub = Ok b_pk ->
  read_private_key B_priv = Ok b_sk ->
  corresponds (k b_sk) (kx b_pk) (ky b_pk) ->
  exists blob,
    encrypt_and_sign e m B_pub A_priv = Ok blob
    /\ decrypt_and_verify blob A_pub B_priv = Ok (Some m, true).
Proof.
  intros HApub HApriv HA HBpub HBpriv HB.
  destruct (encrypt_then_decrypt e _ _ _ m HB)
    as (encrypted_key & blocks & Henc & Hdec).
  destruct (sign_then_authenticate (ecdsa_entropy e) _ _ _ m HA)
    as (sig & Hsign & Hauth).
  set (env := {| env_message := blocks;
                 env_key := [fst encrypted_key; snd encrypted_key];
                 env_signature := [fst sig; snd sig] |}).
  destruct (der_round_trip env) as (encoded & Hder & Hdecode).
  destruct (rs_round_trip encoded) as (blob & Hrs & Hunrs).
  exists blob.
  split.
  - unfold encrypt_and_sign.
    rewrite HBpub, HApriv.
    cbn [try_except bind].
    rewrite Henc.
    cbn [try_except bind].
    rewrite Hsign.
    cbn [bind].
    fold env.
    rewrite Hder.
    cbn [bind].
    exact Hrs.
  - unfold decrypt_and_verify.
    rewrite HBpriv, HApub.
    cbn [try_except bind].
    rewrite Hunrs.
    cbn [bind].
    rewrite Hdecode.
    unfold env.
    cbn [env_key env_message env_signature].
    rewrite Hdec, Hauth.
    reflexivity.
Qed.

End Hybrid.

(** ** The executable primitive layer meets the contracts *)

Module ToyFacts.
Import Toy.

Lemma shake_length (data : bytes) (n : nat) :
  List.length (shake256 data n) = n.
Proof.
  unfold shake256.
  rewrite length_map, length_seq.
  reflexivity.
Qed.

Lemma sha_length (data : bytes) : List.length (sha3_512 data) = 64%nat.
Proof.
  unfold sha3_512.
  rewrite length_map, length_seq.
  reflexivity.
Qed.

Lemma aes_round_trip (key iv : bytes) :
  List.length key = 32%nat -> List.length iv = 16%nat ->
  exists mode,
    cbc key iv = Ok mode
    /\ forall plain, exists cipher,
         encrypter mode plain = Ok cipher /\ decrypter mode cipher = Ok plain.
Proof.
  intros Hkey Hiv.
  exists (key, iv).
  split.
  - unfold cbc, len. rewrite Hkey, Hiv. reflexivity.
  - intro plain.
    eexists; split; [reflexivity |].
    unfold decrypter.
    cbn [fst].
    destruct key as [| k0 key']; [discriminate Hkey |].
    cbn [firstn].
    rewrite rev_app_distr, rev_involutive.
    reflexivity.
Qed.

Lemma ecies_agree (u k kx ky : Z) :
  corresponds k kx ky ->
  exists R sx,
    exchange u kx ky = Ok (R, sx) /\ recover (fst R) (snd R) k = Ok sx.
Proof.
  intros (-> & ->).
  eexists; eexists; split; [reflexivity |].
  unfold recover.
  cbn [fst snd].
  f_equal.
  rewrite !Z.mul_mod_idemp_r by (unfold q; lia).
  f_equal.
  lia.
Qed.

Lemma ecdsa_valid (u k kx ky num : Z) :
  corresponds k kx ky -> 0 <= num < 2 ^ 512 ->
  exists r s, sign u num k = Ok (r, s) /\ validate r s num kx ky = Ok true.
Proof.
  intros (-> & ->) _.
  eexists; eexists; split; [reflexivity |].
  unfold validate.
  f_equal.
  apply Z.eqb_eq.
  symmetry.
  rewrite <- Z.add_mod_idemp_r by (unfold q; lia).
  rewrite Z.mul_mod_idemp_r by (unfold q; lia).
  rewrite Z.add_mod_idemp_r by (unfold q; lia).
  reflexivity.
Qed.

Lemma get_put_nat (n : nat) (rest : bytes) :
  get_nat (put_nat n ++ rest) = Some (n, rest).
Proof.
  unfold put_nat.
  induction n as [| n IH]; [reflexivity |].
  cbn [repeat app get_nat] in *.
  change (Byte.eqb x01 x00) with false.
  cbv iota.
  rewrite IH.
  reflexivity.
Qed.

Lemma get_put_int (z : Z) (rest : bytes) :
  get_int (put_int z ++ rest) = Some (z, rest).
Proof.
  unfold put_int, get_int.
  cbn [app].
  rewrite get_put_nat.
  destruct (Z.ltb_spec z 0).
  - change (Byte.eqb x01 x00) with false. cbv iota. do 2 f_equal. lia.
  - change (Byte.eqb x00 x00) with true. cbv iota. do 2 f_equal. lia.
Qed.

Lemma get_put_ints_n (l : list Z) (rest : bytes) :
  get_ints_n (List.length l) (List.concat (map put_int l) ++ rest) = Some (l, rest).
Proof.
  induction l as [| z l IH]; [reflexivity |].
  cbn [List.length map List.concat get_ints_n].
  rewrite <- app_assoc, get_put_int, IH.
  reflexivity.
Qed.

Lemma get_put_ints (l : list Z) (rest : bytes) :
  get_ints (put_ints l ++ rest) = Some (l, rest).
Proof.
  unfold get_ints, put_ints.
  rewrite <- app_assoc, get_put_nat.
  apply get_put_ints_n.
Qed.

Lemma der_round_trip (env : fincrypt_message) :
  exists encoded, enc_message env = Ok encoded /\ dec_message encoded = Ok env.
Proof.
  eexists; split; [reflexivity |].
  unfold dec_message.
  rewrite get_put_ints, get_put_ints.
  destruct env; reflexivity.
Qed.

Lemma rs_round_trip (data : bytes) :
  exists framed, rs_enc 8 data = Ok framed /\ rs_dec 8 framed = Ok data.
Proof.
  eexists; split; [reflexivity |].
  unfold rs_dec.
  rewrite len_app.
  change (len (repeat x00 (Z.to_nat 8))) with 8.
  pose proof (len_nonneg data).
  destruct (Z.ltb_spec (len data + 8) 8); [lia |].
  rewrite length_app.
  change (List.length (repeat x00 (Z.to_nat 8))) with 8%nat.
  change (Z.to_nat 8) with 8%nat.
  replace (List.length data + 8 - 8)%nat with (List.length data) by lia.
  rewrite firstn_app, firstn_all, Nat.sub_diag.
  cbn [firstn].
  rewrite app_nil_r.
  reflexivity.
Qed.

End ToyFacts.

(** ** The statements at concrete inputs *)

Lemma decrypt_and_verify_inverts_encrypt_and_sign_witness :
  exists blob,
    @encrypt_and_sign Toy.primitives Toy.draws Toy.hello
      Toy.bob_public Toy.alice_private = Ok blob
    /\ @decrypt_and_verify Toy.primitives blob
         Toy.alice_public Toy.bob_private = Ok (Some Toy.hello, true).
Proof.
  apply (@decrypt_and_verify_inverts_encrypt_and_sign
           Toy.primitives Toy.corresponds
           ToyFacts.sha_length ToyFacts.shake_length ToyFacts.aes_round_trip
           ToyFacts.ecies_agree ToyFacts.ecdsa_valid
           ToyFacts.der_round_trip ToyFacts.rs_round_trip
           Toy.draws Toy.hello
           Toy.alice_public Toy.alice_private Toy.bob_public Toy.bob_private
           {| kx := 120; ky := 1; pub_name := []; pub_email := [] |}
           {| kx := 121; ky := 1; pub_name := []; pub_email := [] |}
           {| k := 15682; priv_name := []; priv_email := [] |}
           {| k := 15683; priv_name := []; priv_email := [] |}).
  - vm_compute; reflexivity.
  - vm_compute; reflexivity.
  - split; reflexivity.
  - vm_compute; reflexivity.
  - vm_compute; reflexivity.
  - split; reflexivity.
Defined.

Lemma oaep_unpad_pad_32_witness :
  exists padded,
    @oaep_pad Toy.primitives (2 ^ 40 + 5) Toy.hello 32 = Ok padded
    /\ len padded = len Toy.hello + 32
    /\ @oaep_unpad Toy.primitives padded 32 = Ok Toy.hello.
Proof.
  exact (@oaep_unpad_pad_32 Toy.primitives ToyFacts.shake_length
           (2 ^ 40 + 5) Toy.hello).
Defined.

Lemma oaep_unpad_32_total_witness :
  @oaep_unpad Toy.primitives (repeat x07 32) 32 = Ok []
  /\ (exists out, @oaep_unpad Toy.primitives (repeat x07 40) 32 = Ok out
                  /\ len out = 8)
  /\ exists e, @oaep_unpad Toy.primitives (repeat x07 31) 32 = Raise e.
Proof.
  split; [| split].
  - apply (@oaep_unpad_32_total Toy.primitives ToyFacts.shake_length
             (repeat x07 32)).
    reflexivity.
  - apply (proj1 (@oaep_unpad_32_total Toy.primitives ToyFacts.shake_length
                    (repeat x07 40))).
    vm_compute; discriminate.
  - apply (@oaep_unpad_32_total Toy.primitives ToyFacts.shake_length
             (repeat x07 31)).
    reflexivity.
Defined.

Lemma get_blocks_digest_is_big_endian_witness :
  get_blocks (Toy.sha3_512 Toy.hello) 1024
  = Ok [from_bytes_big (Toy.sha3_512 Toy.hello)].
Proof.
  apply (get_blocks_digest_is_big_endian (Toy.sha3_512 Toy.hello)).
  reflexivity.
Defined.

Lemma decrypt_and_verify_rejects_malformed_blob_witness :
  @decrypt_and_verify Toy.primitives [x00] Toy.alice_public Toy.bob_private
  = Ok (None, false)
  /\ @decrypt_and_verify Toy.primitives (x01 :: repeat x00 8)
       Toy.alice_public Toy.bob_private
     = Ok (None, false).
Proof.
  split.
  - apply (@decrypt_and_verify_rejects_malformed_blob Toy.primitives
             [x00] Toy.alice_public Toy.bob_private
             {| k := 15683; priv_name := []; priv_email := [] |}
             {| kx := 120; ky := 1; pub_name := []; pub_email := [] |}).
    + vm_compute; reflexivity.
    + vm_compute; reflexivity.
    + left. exists (LibraryError "reedsolomon"). reflexivity.
  - apply (@decrypt_and_verify_rejects_malformed_blob Toy.primitives
             (x01 :: repeat x00 8) Toy.alice_public Toy.bob_private
             {| k := 15683; priv_name := []; priv_email := [] |}
             {| kx := 120; ky := 1; pub_name := []; pub_email := [] |}).
    + vm_compute; reflexivity.
    + vm_compute; reflexivity.
    + right. exists [x01], (LibraryError "pyasn1").
      split; reflexivity.
Defined.

Lemma verified_implies_plaintext_witness :
  @hash_rejects_None Toy.primitives
  /\ @decrypt_and_verify Toy.primitives Toy.undecryptable
       Toy.alice_public Toy.bob_private
     = Ok (None, false).
Proof.
  assert (Hnone : @hash_rejects_None Toy.primitives)
    by (exists TypeError; reflexivity).
  split; [exact Hnone |].
  apply (proj2 (@verified_implies_plaintext Toy.primitives Toy.undecryptable
                  Toy.alice_public Toy.bob_private Hnone))
    with (dk := {| k := 15683; priv_name := []; priv_email := [] |})
         (sk := {| kx := 120; ky := 1; pub_name := []; pub_email := [] |})
         (env := {| env_message := []; env_key := [1; 1];
                    env_signature := [1; 1] |})
         (e := ValueError).
  - vm_compute; reflexivity.
  - vm_compute; reflexivity.
  - vm_compute; reflexivity.
  - vm_compute; reflexivity.
Defined.

Lemma symmetric_key_material_agrees_witness :
  exists R sx,
    @encrypt_message Toy.primitives Toy.draws 121 1 Toy.hello
    = (mode <- Toy.cbc (aes_key_of (@key_material Toy.primitives sx))
                       (iv_of (@key_material Toy.primitives sx)) ;;
       padded <- @oaep_pad Toy.primitives (oaep_entropy Toy.draws) Toy.hello 32 ;;
       blocks <- Toy.encrypter mode padded ;;
       Ok ((fst R, snd R), blocks))
    /\ @decrypt_message Toy.primitives 15683 [fst R; snd R] Toy.hello
       = (mode <- Toy.cbc (aes_key_of (@key_material Toy.primitives sx))
                          (iv_of (@key_material Toy.primitives sx)) ;;
          plain <- Toy.decrypter mode Toy.hello ;;
          @oaep_unpad Toy.primitives plain 32).
Proof.
  apply (proj2 (proj2 (proj2
           (@symmetric_key_material_agrees Toy.primitives Toy.corresponds
              ToyFacts.sha_length ToyFacts.ecies_agree)))
           Toy.draws 15683 121 1 Toy.hello Toy.hello).
  split; reflexivity.
Defined.


(* ================================================================== *)
(** * Part III. The remaining functions of [fincrypt.py] and [oaep.py] *)
(* ================================================================== *)

(** ** [get_blocks] and [get_bytes] *)

Lemma byte_val_zero (b : byte) : byte_val b = 0 <-> b = x00.
Proof.
  split.
  - intro H. rewrite <- (byte_of_Z_val b), H. reflexivity.
  - intros ->. reflexivity.
Qed.

Lemma eqb_x00 (b : byte) : Byte.eqb b x00 = true <-> byte_val b = 0.
Proof.
  rewrite byte_val_zero.
  split; [apply Byte.byte_dec_bl | apply Byte.byte_dec_lb].
Qed.

Lemma from_bytes_big_snoc (data : bytes) (b : byte) :
  from_bytes_big (data ++ [b]) = 256 * from_bytes_big data + byte_val b.
Proof.
  unfold from_bytes_big.
  rewrite fold_left_app.
  reflexivity.
Qed.

Lemma from_bytes_big_cons (b : byte) (data : bytes) :
  from_bytes_big (b :: data) = from_bytes_big data + 256 ^ len data * byte_val b.
Proof.
  unfold from_bytes_big.
  cbn [fold_left].
  rewrite !from_bytes_big_acc.
  change (256 * 0 + byte_val b) with (byte_val b).
  lia.
Qed.

Lemma from_bytes_big_drop_zeros (data : bytes) :
  from_bytes_big (drop_zeros data) = from_bytes_big data.
Proof.
  induction data as [| b rest IH]; [reflexivity |].
  cbn [drop_zeros].
  destruct (Byte.eqb b x00) eqn:E; [| reflexivity].
  apply eqb_x00 in E.
  rewrite from_bytes_big_cons, E, IH.
  lia.
Qed.

Lemma drop_zeros_nil_iff (data : bytes) :
  drop_zeros data = [] <-> from_bytes_big data = 0.
Proof.
  induction data as [| b rest IH]; [split; reflexivity |].
  cbn [drop_zeros].
  rewrite from_bytes_big_cons.
  pose proof (from_bytes_big_range rest) as Hr.
  pose proof (byte_val_range b) as Hb.
  assert (Hp : 0 < 256 ^ len rest) by (apply Z.pow_pos_nonneg; [lia | apply len_nonneg]).
  destruct (Byte.eqb b x00) eqn:E.
  - apply eqb_x00 in E. rewrite E, IH. lia.
  - split; [discriminate |].
    intro H.
    assert (Hz : byte_val b = 0) by nia.
    apply eqb_x00 in Hz.
    congruence.
Qed.

Lemma drop_zeros_snoc (data : bytes) (b : byte) :
  from_bytes_big (data ++ [b]) <> 0 ->
  drop_zeros (data ++ [b]) = drop_zeros data ++ [b].
Proof.
  induction data as [| c rest IH]; intro Hn.
  - cbn [app drop_zeros] in *.
    destruct (Byte.eqb b x00) eqn:E; [| reflexivity].
    apply eqb_x00 in E.
    exfalso; apply Hn.
    unfold from_bytes_big; cbn [fold_left]. lia.
  - cbn [app drop_zeros] in *.
    destruct (Byte.eqb c x00) eqn:E; [| reflexivity].
    apply IH.
    apply eqb_x00 in E.
    rewrite from_bytes_big_cons, E in Hn.
    lia.
Qed.

Lemma length_drop_zeros (data : bytes) :
  (List.length (drop_zeros data) <= List.length data)%nat.
Proof.
  induction data as [| b rest IH]; [apply Nat.le_refl |].
  cbn [drop_zeros].
  destruct (Byte.eqb b x00); cbn [List.length]; lia.
Qed.

(** The digits that the [while] loop appends for the big-endian
    reading of [data]: the bytes of [data] without leading zeros, last
    byte first. *)
Lemma block_text_loop_value (data : bytes) :
  forall (fuel : nat) (block_text : list bytes),
    (List.length data < fuel)%nat ->
    block_text_loop fuel (from_bytes_big data) block_text
    = Some (block_text ++ map (fun b => [b]) (rev (drop_zeros data))).
Proof.
  induction data as [| b data IH] using rev_ind; intros fuel block_text Hfuel.
  - destruct fuel as [| fuel]; [inversion Hfuel |].
    cbn. rewrite app_nil_r. reflexivity.
  - rewrite length_app in Hfuel. cbn [List.length] in Hfuel.
    destruct fuel as [| fuel]; [lia |].
    cbn [block_text_loop].
    destruct (Z.eqb_spec (from_bytes_big (data ++ [b])) 0) as [Hz | Hnz].
    + apply drop_zeros_nil_iff in Hz.
      rewrite Hz. cbn. rewrite app_nil_r. reflexivity.
    + rewrite (drop_zeros_snoc data b Hnz).
      rewrite from_bytes_big_snoc.
      pose proof (byte_val_range b) as Hb.
      replace ((256 * from_bytes_big data + byte_val b) mod 256) with (byte_val b).
      2:{ rewrite Z.add_comm, Z.mul_comm, Z.mod_add by lia.
          symmetry; apply Z.mod_small; lia. }
      replace ((256 * from_bytes_big data + byte_val b) / 256)
        with (from_bytes_big data).
      2:{ rewrite Z.mul_comm, Z.div_add_l by lia.
          rewrite Z.div_small by lia. lia. }
      rewrite byte_of_Z_val, IH by lia.
      rewrite rev_app_distr.
      cbn [rev app map].
      rewrite <- app_assoc.
      reflexivity.
Qed.

Lemma block_text_loop_negative (fuel : nat) :
  forall (block : Z) (block_text : list bytes),
    block < 0 -> block_text_loop fuel block block_text = None.
Proof.
  induction fuel as [| fuel IH]; intros block block_text Hneg; [reflexivity |].
  cbn [block_text_loop].
  destruct (Z.eqb_spec block 0); [lia |].
  apply IH.
  apply Z.div_lt_upper_bound; lia.
Qed.

Lemma concat_singletons (data : bytes) :
  List.concat (map (fun b => [b]) data) = data.
Proof.
  induction data as [| b rest IH]; [reflexivity |].
  cbn [map List.concat app]. rewrite IH. reflexivity.
Qed.

Lemma get_bytes_loop_value (fuel : nat) (chunks : list bytes) :
  forall message : list bytes,
    Forall (fun c => (List.length c < fuel)%nat) chunks ->
    exists tail,
      get_bytes_loop fuel (map from_bytes_big chunks) message = Some (message ++ tail)
      /\ List.concat tail = List.concat (map drop_zeros chunks).
Proof.
  induction chunks as [| c chunks IH]; intros message Hall.
  - exists []. cbn. rewrite app_nil_r. auto.
  - inversion Hall as [| ? ? Hc Hrest]; subst.
    cbn [map get_bytes_loop].
    rewrite (block_text_loop_value c fuel [] Hc).
    cbn [app].
    destruct (IH (message ++ rev (map (fun b => [b]) (rev (drop_zeros c)))) Hrest)
      as (tail & Hloop & Htail).
    exists (rev (map (fun b => [b]) (rev (drop_zeros c))) ++ tail).
    split.
    + rewrite app_assoc. exact Hloop.
    + rewrite concat_app, Htail.
      rewrite <- map_rev, rev_involutive, concat_singletons.
      reflexivity.
Qed.

Lemma get_bytes_of_blocks (fuel : nat) (chunks : list bytes) :
  Forall (fun c => (List.length c < fuel)%nat) chunks ->
  get_bytes fuel (map from_bytes_big chunks)
  = Some (List.concat (map drop_zeros chunks)).
Proof.
  intro Hall.
  unfold get_bytes.
  destruct (get_bytes_loop_value fuel chunks [] Hall) as (tail & -> & Htail).
  cbn [app].
  rewrite Htail.
  reflexivity.
Qed.

Lemma get_blocks_message_blocks (message : bytes) (block_size : Z) :
  get_blocks message block_size
  = (chunks <- message_blocks message block_size ;;
     Ok (map from_bytes_big chunks)).
Proof.
  unfold get_blocks, message_blocks.
  destruct (range 0 (len message) block_size) as [starts | e]; [| reflexivity].
  cbn [bind].
  rewrite map_map.
  f_equal.
  apply map_ext.
  intro i.
  rewrite block_num_loop_value by lia.
  change (256 ^ 0) with 1.
  rewrite from_bytes_little_rev.
  lia.
Qed.

(** Consecutive pieces of [size] items put together again. *)
Lemma pieces_concat {A : Type} (size : nat) :
  forall (count : nat) (data : list A),
    (List.length data <= count * size)%nat ->
    List.concat (map (fun i => firstn size (skipn (i * size) data)) (seq 0 count))
    = data.
Proof.
  induction count as [| count IH]; intros data Hlen.
  - destruct data; [reflexivity | cbn in Hlen; lia].
  - cbn [seq map List.concat].
    rewrite <- seq_shift, map_map.
    cbn [Nat.mul Nat.add skipn].
    rewrite (map_ext _ (fun i => firstn size (skipn (i * size) (skipn size data)))).
    2:{ intro i. rewrite skipn_skipn.
        replace (i * size + size)%nat with (size + i * size)%nat by lia.
        reflexivity. }
    rewrite IH by (rewrite length_skipn; lia).
    apply firstn_skipn.
Qed.

Lemma range_positive_step (stop step : Z) :
  0 <= stop -> 0 < step ->
  range 0 stop step
  = Ok (map (fun i => Z.of_nat (i * Z.to_nat step))
            (seq 0 (Z.to_nat ((stop + step - 1) / step)))).
Proof.
  intros Hstop Hstep.
  unfold range.
  destruct (Z.eqb_spec step 0); [lia |].
  destruct (Z.ltb_spec 0 step); [| lia].
  replace (stop - 0 + step - 1) with (stop + step - 1) by lia.
  assert (0 <= (stop + step - 1) / step) by (apply Z.div_pos; lia).
  rewrite Z.max_r by lia.
  f_equal.
  apply map_ext.
  intro i.
  lia.
Qed.

Lemma message_blocks_value (message : bytes) (block_size : Z) :
  0 < block_size ->
  message_blocks message block_size
  = Ok (map (fun i => firstn (Z.to_nat block_size)
                        (skipn (i * Z.to_nat block_size) message))
            (seq 0 (Z.to_nat ((len message + block_size - 1) / block_size)))).
Proof.
  intro Hpos.
  unfold message_blocks.
  rewrite range_positive_step by (try apply len_nonneg; lia).
  cbn [bind].
  rewrite map_map.
  f_equal.
  apply map_ext.
  intro i.
  replace (Z.of_nat (i * Z.to_nat block_size) + block_size)
    with (Z.of_nat (i * Z.to_nat block_size + Z.to_nat block_size)) by lia.
  apply slice_firstn_skipn.
Qed.

Lemma block_count_covers (n size : Z) :
  0 <= n -> 0 < size ->
  (Z.to_nat n <= Z.to_nat ((n + size - 1) / size) * Z.to_nat size)%nat.
Proof.
  intros Hn Hsize.
  pose proof (Z.div_mod (n + size - 1) size ltac:(lia)) as Hdm.
  pose proof (Z.mod_pos_bound (n + size - 1) size Hsize) as Hmod.
  assert (0 <= (n + size - 1) / size) by (apply Z.div_pos; lia).
  nia.
Qed.

(** The blocks of a message are its consecutive pieces: together they
    are the message, and none is longer than the block size or than the
    message. *)
Lemma message_blocks_cover (message : bytes) (block_size : Z) :
  0 < block_size ->
  exists chunks,
    message_blocks message block_size = Ok chunks
    /\ List.concat chunks = message
    /\ len chunks = (len message + block_size - 1) / block_size
    /\ Forall (fun c => len c <= block_size
                        /\ (List.length c <= List.length message)%nat) chunks.
Proof.
  intro Hpos.
  rewrite message_blocks_value by exact Hpos.
  eexists; split; [reflexivity |].
  split; [| split].
  - apply pieces_concat.
    pose proof (block_count_covers (len message) block_size (len_nonneg _) Hpos) as H.
    unfold len in H at 1.
    rewrite Nat2Z.id in H.
    exact H.
  - unfold len at 1.
    rewrite length_map, length_seq, Z2Nat.id; [reflexivity |].
    apply Z.div_pos; [pose proof (len_nonneg message) |]; lia.
  - apply Forall_forall.
    intros c Hc.
    apply in_map_iff in Hc as (i & <- & _).
    unfold len.
    rewrite length_firstn, length_skipn.
    split; lia.
Qed.

(** X1. For a positive block size, [get_bytes(get_blocks(message,
    block_size))] is the message with the leading zero bytes of each
    block removed: the loop of [get_bytes] stops at the most significant
    non-zero digit, so leading zeros of a block do not come back. *)
Theorem get_bytes_get_blocks_drops_leading_zeros
  (message : bytes) (block_size : Z) :
  0 < block_size ->
  exists chunks blocks,
    message_blocks message block_size = Ok chunks
    /\ List.concat chunks = message
    /\ get_blocks message block_size = Ok blocks
    /\ forall fuel, (List.length message < fuel)%nat ->
         get_bytes fuel blocks = Some (List.concat (map drop_zeros chunks)).
Proof.
  intro Hpos.
  destruct (message_blocks_cover message block_size Hpos)
    as (chunks & Hchunks & Hconcat & _ & Hall).
  exists chunks, (map from_bytes_big chunks).
  split; [exact Hchunks |].
  split; [exact Hconcat |].
  split.
  - rewrite get_blocks_message_blocks, Hchunks. reflexivity.
  - intros fuel Hfuel.
    apply get_bytes_of_blocks.
    eapply Forall_impl; [| exact Hall].
    cbv beta. intros c (_ & Hc). lia.
Qed.

Lemma drop_zeros_fixed (c : bytes) :
  (forall rest, c <> x00 :: rest) -> drop_zeros c = c.
Proof.
  intro H.
  destruct c as [| b rest]; [reflexivity |].
  cbn [drop_zeros].
  destruct (Byte.eqb b x00) eqn:E; [| reflexivity].
  apply Byte.byte_dec_bl in E.
  subst b.
  contradiction (H rest); reflexivity.
Qed.

(** X2. The round trip promised by the docstring of [get_blocks] holds
    when no block of the message begins with a zero byte: then
    [get_bytes(get_blocks(message, block_size))] is the message. *)
Theorem get_bytes_inverts_get_blocks
  (message : bytes) (block_size : Z) (chunks : list bytes) (fuel : nat) :
  0 < block_size ->
  message_blocks message block_size = Ok chunks ->
  Forall (fun c => forall rest, c <> x00 :: rest) chunks ->
  (List.length message < fuel)%nat ->
  exists blocks,
    get_blocks message block_size = Ok blocks
    /\ get_bytes fuel blocks = Some message.
Proof.
  intros Hpos Hchunks Hnz Hfuel.
  destruct (message_blocks_cover message block_size Hpos)
    as (chunks' & Hchunks' & Hconcat & _ & Hall).
  rewrite Hchunks in Hchunks'.
  injection Hchunks' as <-.
  exists (map from_bytes_big chunks).
  split.
  - rewrite get_blocks_message_blocks, Hchunks. reflexivity.
  - rewrite get_bytes_of_blocks.
    + rewrite (map_ext_in drop_zeros (fun c => c)).
      * rewrite map_id, Hconcat. reflexivity.
      * intros c Hc.
        apply drop_zeros_fixed.
        exact (proj1 (Forall_forall _ _) Hnz c Hc).
    + eapply Forall_impl; [| exact Hall].
      cbv beta. intros c (_ & Hc). lia.
Qed.

Lemma get_bytes_loop_negative (fuel : nat) (block_nums : list Z) :
  forall message : list bytes,
    (exists block, In block block_nums /\ block < 0) ->
    get_bytes_loop fuel block_nums message = None.
Proof.
  induction block_nums as [| b rest IH]; intros message (block & Hin & Hneg).
  - contradiction Hin.
  - cbn [get_bytes_loop].
    destruct Hin as [-> | Hin].
    + rewrite block_text_loop_negative by exact Hneg. reflexivity.
    + destruct (block_text_loop fuel b []); [| reflexivity].
      apply IH.
      exists block; auto.
Qed.

(** X3. [get_bytes] does not return on a list that holds a negative
    block: [block // 256] of a negative integer stays negative, so the
    [while block:] loop never ends, however many iterations are
    allowed. *)
Theorem get_bytes_diverges_on_negative_block
  (block_nums : list Z) (block : Z) (fuel : nat) :
  In block block_nums -> block < 0 ->
  get_bytes fuel block_nums = None.
Proof.
  intros Hin Hneg.
  unfold get_bytes.
  rewrite get_bytes_loop_negative; [reflexivity |].
  exists block; auto.
Qed.

(** A non-negative integer as the big-endian reading of [width] bytes. *)
Lemma from_bytes_big_digits (width : nat) (n : Z) :
  0 <= n < 256 ^ Z.of_nat width ->
  from_bytes_big (rev (digits_little width n)) = n.
Proof.
  intro Hn.
  rewrite <- from_bytes_little_rev, rev_involutive.
  apply from_bytes_digits_little; exact Hn.
Qed.

Lemma below_own_power (n : Z) : 0 <= n -> 0 <= n < 256 ^ Z.of_nat (Z.to_nat n).
Proof.
  intro Hn.
  rewrite Z2Nat.id by lia.
  split; [exact Hn |].
  apply Z.pow_gt_lin_r; lia.
Qed.

(** X4. [get_bytes] returns on every list of non-negative blocks, once
    enough iterations are allowed, and more iterations do not change the
    result; a block that is zero contributes no byte. *)
Theorem get_bytes_returns_on_nonnegative_blocks (block_nums : list Z) :
  Forall (fun block => 0 <= block) block_nums ->
  exists data fuel0,
    (forall fuel, (fuel0 <= fuel)%nat -> get_bytes fuel block_nums = Some data)
    /\ (Forall (fun block => block = 0) block_nums -> data = []).
Proof.
  intro Hall.
  set (chunk := fun n : Z => rev (digits_little (Z.to_nat n) n)).
  assert (Hblocks : map from_bytes_big (map chunk block_nums) = block_nums).
  { rewrite map_map.
    rewrite (map_ext_in _ (fun n => n)); [apply map_id |].
    intros n Hin.
    apply from_bytes_big_digits, below_own_power.
    exact (proj1 (Forall_forall _ _) Hall n Hin). }
  exists (List.concat (map drop_zeros (map chunk block_nums))).
  exists (S (list_max (map (fun c => List.length c) (map chunk block_nums)))).
  split.
  - intros fuel Hfuel.
    rewrite <- Hblocks at 1.
    apply get_bytes_of_blocks.
    apply Forall_forall.
    intros c Hc.
    assert (List.length c <= list_max (map (fun c => List.length c) (map chunk block_nums)))%nat.
    { pose proof (list_max_le (map (fun c => List.length c) (map chunk block_nums))
                    (list_max (map (fun c => List.length c) (map chunk block_nums)))) as Hmax.
      apply proj1 in Hmax.
      specialize (Hmax (Nat.le_refl _)).
      rewrite Forall_forall in Hmax.
      apply Hmax, in_map, Hc. }
    lia.
  - intro Hzero.
    clear Hblocks.
    induction block_nums as [| n rest IH]; [reflexivity |].
    inversion Hzero as [| ? ? Hn Hrest]; subst.
    inversion Hall; subst.
    cbn [map List.concat].
    rewrite IH by assumption.
    reflexivity.
Qed.

(** X5. [get_blocks] inverts [get_bytes] on one positive block that
    fits the block size: for [0 < n < 256 ** block_size],
    [get_blocks(get_bytes([n]), block_size) == [n]]. *)
Theorem get_blocks_inverts_get_bytes (n block_size : Z) :
  0 < n < 256 ^ block_size ->
  exists data,
    (forall fuel, (Z.to_nat block_size < fuel)%nat ->
       get_bytes fuel [n] = Some data)
    /\ get_blocks data block_size = Ok [n].
Proof.
  intro Hn.
  assert (Hpos : 0 < block_size).
  { destruct (Z.ltb_spec 0 block_size) as [H | H]; [exact H |].
    exfalso.
    destruct (Z.eq_dec block_size 0) as [-> | Hne].
    - change (256 ^ 0) with 1 in Hn. lia.
    - rewrite Z.pow_neg_r in Hn by lia. lia. }
  set (c := rev (digits_little (Z.to_nat block_size) n)).
  assert (Hc : from_bytes_big c = n).
  { apply from_bytes_big_digits. rewrite Z2Nat.id by lia. lia. }
  assert (Hlen : List.length c = Z.to_nat block_size).
  { unfold c. rewrite length_rev, length_digits_little. reflexivity. }
  exists (drop_zeros c).
  split.
  - intros fuel Hfuel.
    rewrite <- Hc.
    change [from_bytes_big c] with (map from_bytes_big [c]).
    rewrite get_bytes_of_blocks.
    + cbn [map List.concat]. rewrite app_nil_r. reflexivity.
    + constructor; [lia | constructor].
  - rewrite get_blocks_single.
    + rewrite from_bytes_big_drop_zeros, Hc. reflexivity.
    + pose proof (length_drop_zeros c) as Hle.
      unfold len.
      split; [| lia].
      destruct (drop_zeros c) eqn:E; [| cbn [List.length]; lia].
      apply drop_zeros_nil_iff in E.
      lia.
Qed.

(** X6. For a positive block size, [get_blocks] returns
    [ceil(len(message) / block_size)] blocks, each in
    [0 .. 256 ** block_size - 1]; in particular the empty message has no
    block.  A zero block size raises [ValueError] and a negative one
    gives no block at all. *)
Theorem get_blocks_count_and_range (message : bytes) (block_size : Z) :
  (0 < block_size ->
   exists blocks,
     get_blocks message block_size = Ok blocks
     /\ len blocks = (len message + block_size - 1) / block_size
     /\ Forall (fun z => 0 <= z < 256 ^ block_size) blocks)
  /\ (block_size = 0 -> get_blocks message block_size = Raise ValueError)
  /\ (block_size < 0 -> get_blocks message block_size = Ok []).
Proof.
  split; [| split].
  - intro Hpos.
    destruct (message_blocks_cover message block_size Hpos)
      as (chunks & Hchunks & _ & Hcount & Hall).
    exists (map from_bytes_big chunks).
    split; [rewrite get_blocks_message_blocks, Hchunks; reflexivity |].
    split.
    + unfold len in *. rewrite length_map. exact Hcount.
    + apply Forall_forall.
      intros z Hz.
      apply in_map_iff in Hz as (c & <- & Hc).
      pose proof (from_bytes_big_range c) as Hr.
      destruct (proj1 (Forall_forall _ _) Hall c Hc) as (Hle & _).
      assert (256 ^ len c <= 256 ^ block_size)
        by (apply Z.pow_le_mono_r; [lia | exact Hle]).
      lia.
  - intros ->. reflexivity.
  - intro Hneg.
    unfold get_blocks, range.
    destruct (Z.eqb_spec block_size 0); [lia |].
    destruct (Z.ltb_spec 0 block_size); [lia |].
    pose proof (len_nonneg message) as Hlen.
    assert (Hq : (0 - len message - block_size - 1) / - block_size <= 0).
    { apply Z.lt_succ_r.
      apply Z.div_lt_upper_bound; lia. }
    rewrite Z.max_l by lia.
    reflexivity.
Qed.

(** ** [strip_headers] and the readers *)

Lemma denotes_label_tail (s s' : string) (g g' : list string) :
  denotes label_tail s s' g g' ->
  g' = g /\ exists kind, In kind armor_kinds /\ s = (kind ++ s')%string.
Proof.
  intros (sa & ga & Hopt & Hkind).
  cbn [denotes] in Hopt, Hkind.
  destruct Hopt as [[(-> & ->) | (-> & ->)] | (-> & ->)];
    destruct Hkind as [(-> & ->) | (-> & ->)];
    (split; [reflexivity |]);
    [ exists "PUBLIC KEY"%string | exists "PUBLIC MESSAGE"%string
    | exists "PRIVATE KEY"%string | exists "PRIVATE MESSAGE"%string
    | exists "KEY"%string | exists "MESSAGE"%string ];
    (split; [cbn; tauto | reflexivity]).
Qed.

(** Every text that [strip_headers] accepts has the shape of the
    pattern: dashes, the header, dashes, a newline, the body, a newline,
    dashes, an end label, dashes, and any text after them. *)
Lemma strip_headers_inversion (pem_text header body : string) :
  strip_headers pem_text = (Some header, Some body) ->
  exists (d1 d2 d3 d4 run : string) (last : ascii) (kind rest : string),
    pem_text
    = (d1 ++ " " ++ header ++ " " ++ d2 ++ String newline
         (body ++ String newline
            (d3 ++ " END FINCRYPT " ++ kind ++ " " ++ d4 ++ rest)))%string
    /\ dash_run d1 /\ dash_run d2 /\ dash_run d3 /\ dash_run d4
    /\ In header armor_headers
    /\ In kind armor_kinds
    /\ body = (run ++ String last EmptyString)%string
    /\ run <> EmptyString
    /\ all_chars body_class run = true
    /\ last <> newline.
Proof.
  unfold strip_headers, re_match.
  destruct (match_regex (list string) armor_pattern pem_text []
              (fun _ groups => Some groups)) as [groups |] eqn:Hm;
    [| discriminate].
  apply match_regex_sound in Hm as (rest & g' & Hden & Hcont).
  injection Hcont as <-.
  intro Hret.
  unfold armor_pattern, cat in Hden.
  cbn [fold_right] in Hden.
  destruct Hden as (s1 & g1 & ((d1 & -> & Hd1) & ->) & Hden).
  destruct Hden as (s2 & g2 & (-> & ->) & Hden).
  destruct Hden as (s3 & g3 & (g3' & Hlabel & ->) & Hden).
  destruct Hden as (s4 & g4 & (-> & ->) & Hden).
  destruct Hden as (s5 & g5 & ((d2 & -> & Hd2) & ->) & Hden).
  destruct Hden as (s6 & g6 & ((c6 & -> & Hc6) & ->) & Hden).
  destruct Hden as (s7 & g7 & (g7' & Hbody & ->) & Hden).
  destruct Hden as (s8 & g8 & ((c8 & -> & Hc8) & ->) & Hden).
  destruct Hden as (s9 & g9 & ((d3 & -> & Hd3) & ->) & Hden).
  destruct Hden as (s10 & g10 & (-> & ->) & Hden).
  destruct Hden as (s11 & g11 & Htail & Hden).
  destruct Hden as (s12 & g12 & (-> & ->) & Hden).
  destruct Hden as (s13 & g13 & ((d4 & -> & Hd4) & ->) & <- & ->).
  apply denotes_label_tail in Htail as (-> & kind & Hkind & ->).
  destruct Hlabel as (sa & ga & (-> & ->) & Hlabel).
  apply denotes_label_tail in Hlabel as (-> & hkind & Hhkind & ->).
  destruct Hbody as (sb & gb & ((run & -> & Hne & Hall) & ->)
                     & ((last & -> & Hlast) & ->)).
  apply Ascii.eqb_eq in Hc6, Hc8.
  subst c6 c8.
  cbn [app nth_error] in Hret.
  injection Hret as Hh Hb.
  assert (Hheader : header = ("BEGIN FINCRYPT " ++ hkind)%string).
  { rewrite <- Hh.
    match goal with
    | |- consumed ?a ?b = _ =>
        change a with (("BEGIN FINCRYPT " ++ hkind) ++ b)%string
    end.
    apply consumed_append. }
  assert (Hbodyeq : body = (run ++ String last EmptyString)%string).
  { rewrite <- Hb.
    match goal with
    | |- consumed ?a ?b = _ =>
        replace a with ((run ++ String last EmptyString) ++ b)%string
          by (rewrite append_assoc; reflexivity)
    end.
    apply consumed_append. }
  exists d1, d2, d3, d4, run, last, kind, rest.
  split.
  { rewrite Hheader, Hbodyeq.
    rewrite !append_assoc.
    reflexivity. }
  unfold dash_run.
  destruct Hd1 as (? & ?), Hd2 as (? & ?), Hd3 as (? & ?), Hd4 as (? & ?).
  repeat split; try assumption.
  - rewrite Hheader. unfold armor_headers. apply in_map. exact Hhkind.
  - unfold not_newline in Hlast.
    intros ->.
    rewrite Ascii.eqb_refl in Hlast.
    discriminate.
Qed.

Lemma re_match_armor_groups (pem_text : string) (groups : list string) :
  re_match armor_pattern pem_text = Some groups ->
  exists header body, groups = [header; body].
Proof.
  unfold re_match.
  intro Hm.
  apply match_regex_sound in Hm as (rest & g' & Hden & Hcont).
  injection Hcont as <-.
  unfold armor_pattern, cat in Hden.
  cbn [fold_right] in Hden.
  destruct Hden as (s1 & g1 & (_ & ->) & Hden).
  destruct Hden as (s2 & g2 & (_ & ->) & Hden).
  destruct Hden as (s3 & g3 & (g3' & Hlabel & ->) & Hden).
  destruct Hden as (s4 & g4 & (_ & ->) & Hden).
  destruct Hden as (s5 & g5 & (_ & ->) & Hden).
  destruct Hden as (s6 & g6 & (_ & ->) & Hden).
  destruct Hden as (s7 & g7 & (g7' & Hbody & ->) & Hden).
  destruct Hden as (s8 & g8 & (_ & ->) & Hden).
  destruct Hden as (s9 & g9 & (_ & ->) & Hden).
  destruct Hden as (s10 & g10 & (_ & ->) & Hden).
  destruct Hden as (s11 & g11 & Htail & Hden).
  destruct Hden as (s12 & g12 & (_ & ->) & Hden).
  destruct Hden as (s13 & g13 & (_ & ->) & _ & ->).
  apply denotes_label_tail in Htail as (-> & _).
  destruct Hlabel as (sa & ga & (_ & ->) & Hlabel).
  apply denotes_label_tail in Hlabel as (-> & _).
  destruct Hbody as (sb & gb & (_ & ->) & (_ & ->)).
  eexists; eexists; reflexivity.
Qed.

Lemma strip_headers_returns_none_or_label_aux (pem_text : string) :
  strip_headers pem_text = (None, None)
  \/ exists header body, strip_headers pem_text = (Some header, Some body).
Proof.
  unfold strip_headers.
  destruct (re_match armor_pattern pem_text) as [groups |] eqn:Hm.
  - right.
    destruct (re_match_armor_groups _ _ Hm) as (header & body & ->).
    exists header, body. reflexivity.
  - left. reflexivity.
Qed.

(** X7. [strip_headers] returns either [(None, None)] or two strings,
    never one of each; and a header that it returns is one of the six
    labels ["BEGIN FINCRYPT [PUBLIC |PRIVATE ](KEY|MESSAGE)"]. *)
Theorem strip_headers_returns_none_or_label (pem_text : string) :
  strip_headers pem_text = (None, None)
  \/ exists header body,
       strip_headers pem_text = (Some header, Some body)
       /\ In header armor_headers.
Proof.
  destruct (strip_headers_returns_none_or_label_aux pem_text)
    as [Hs | (header & body & Hs)]; [left; exact Hs | right].
  exists header, body.
  split; [exact Hs |].
  destruct (strip_headers_inversion _ _ _ Hs)
    as (d1 & d2 & d3 & d4 & run & last & kind & rest & _ & _ & _ & _ & _ & Hin & _).
  exact Hin.
Qed.

Lemma length_snoc_string (run : string) (last : ascii) :
  String.length (run ++ String last EmptyString) = S (String.length run).
Proof.
  rewrite length_append. cbn [String.length]. lia.
Qed.

(** X8. A body that [strip_headers] returns has at least two
    characters, begins with a character of the class
    [[a-zA-Z0-9\n\-_=]] and does not end in a newline: the newline
    before the footer is never part of it. *)
Theorem strip_headers_body_has_no_trailing_newline
  (pem_text header body : string) :
  strip_headers pem_text = (Some header, Some body) ->
  (2 <= String.length body)%nat
  /\ (exists first rest, body = String first rest /\ body_class first = true)
  /\ (forall front, body <> (front ++ String newline EmptyString)%string).
Proof.
  intro Hs.
  destruct (strip_headers_inversion _ _ _ Hs)
    as (d1 & d2 & d3 & d4 & run & last & kind & rest
        & _ & _ & _ & _ & _ & _ & _ & -> & Hne & Hall & Hlast).
  split; [| split].
  - rewrite length_snoc_string.
    destruct run; [contradiction Hne; reflexivity | cbn [String.length]; lia].
  - destruct run as [| c run]; [contradiction Hne; reflexivity |].
    cbn [all_chars] in Hall.
    apply andb_true_iff in Hall as (Hc & _).
    exists c, (run ++ String last EmptyString)%string.
    split; [reflexivity | exact Hc].
  - intros front Heq.
    apply Hlast.
    clear - Heq.
    revert front Heq.
    induction run as [| c run IH]; intros front Heq.
    + destruct front as [| f front]; cbn [append] in Heq.
      * injection Heq as ->. reflexivity.
      * injection Heq as _ Heq. destruct front; discriminate Heq.
    + destruct front as [| f front]; cbn [append] in Heq.
      * injection Heq as _ Heq. destruct run; discriminate Heq.
      * injection Heq as _ Heq. exact (IH front Heq).
Qed.

Section Readers.
Context {P : Primitives}.

Lemma readers_on_rejected_text (text : string) :
  strip_headers text = (None, None) ->
  read_message text = Raise ValueError
  /\ read_public_key text = Raise ValueError
  /\ read_private_key text = Raise ValueError.
Proof.
  intro Hs.
  unfold read_message, read_public_key, read_private_key.
  rewrite Hs.
  repeat split; reflexivity.
Qed.

(** X9. A text that does not begin with [-] (an empty text, or one with
    a leading blank, newline or byte-order mark) is rejected:
    [strip_headers] returns [(None, None)] and each of the three readers
    raises [ValueError], before any decoder is called. *)
Theorem text_without_leading_dash_is_rejected (text : string) :
  (forall rest, text <> String "-" rest) ->
  strip_headers text = (None, None)
  /\ read_message text = Raise ValueError
  /\ read_public_key text = Raise ValueError
  /\ read_private_key text = Raise ValueError.
Proof.
  intro Hfirst.
  assert (Hs : strip_headers text = (None, None)).
  { destruct (strip_headers_returns_none_or_label_aux text) as [Hs | (h & b & Hs)];
      [exact Hs |].
    exfalso.
    destruct (strip_headers_inversion _ _ _ Hs)
      as (d1 & d2 & d3 & d4 & run & last & kind & rest & Htext & (Hne & Hd) & _).
    destruct d1 as [| c d1]; [contradiction Hne; reflexivity |].
    cbn [all_chars] in Hd.
    apply andb_true_iff in Hd as (Hc & _).
    apply Ascii.eqb_eq in Hc.
    subst c.
    cbn [append] in Htext.
    exact (Hfirst _ Htext). }
  split; [exact Hs | apply readers_on_rejected_text; exact Hs].
Qed.

(** X10. The three readers exclude one another: a text that one of
    [read_message], [read_public_key] and [read_private_key] accepts
    makes the other two raise [ValueError], so a keyfile of the wrong
    kind is never taken for the right one. *)
Theorem readers_are_mutually_exclusive (text : string) :
  (forall body, read_message text = Ok body ->
     read_public_key text = Raise ValueError
     /\ read_private_key text = Raise ValueError)
  /\ (forall pk, read_public_key text = Ok pk ->
        read_message text = Raise ValueError
        /\ read_private_key text = Raise ValueError)
  /\ (forall sk, read_private_key text = Ok sk ->
        read_message text = Raise ValueError
        /\ read_public_key text = Raise ValueError).
Proof.
  unfold read_message, read_public_key, read_private_key.
  destruct (strip_headers text) as [[header |] [body |]];
    try (repeat split; intros; discriminate).
  destruct (String.eqb_spec header "BEGIN FINCRYPT MESSAGE") as [-> | Hm];
    [repeat split; intros; try discriminate; reflexivity |].
  destruct (String.eqb_spec header "BEGIN FINCRYPT PUBLIC KEY") as [-> | Hp];
    [repeat split; intros; try discriminate; reflexivity |].
  destruct (String.eqb_spec header "BEGIN FINCRYPT PRIVATE KEY") as [-> | Hs];
    repeat split; intros; try discriminate; reflexivity.
Qed.

End Readers.

(** ** Errors and results of the top-level operations *)

Section TopLevel.
Context {P : Primitives}.

(** X11. [decrypt_and_verify] raises exactly when a keyfile cannot be
    read, and then a [FinCryptDecodingError]: the private keyfile is
    read first and reported first; with two readable keyfiles every
    blob gives a pair. *)
Theorem decrypt_and_verify_raises_only_for_keyfiles
  (blob : bytes) (sender_text private_text : string) :
  (forall e, read_private_key private_text = Raise e ->
     decrypt_and_verify blob sender_text private_text
     = Raise (FinCryptDecodingError "Private key file is malformed."))
  /\ (forall dk e,
        read_private_key private_text = Ok dk ->
        read_public_key sender_text = Raise e ->
        decrypt_and_verify blob sender_text private_text
        = Raise (FinCryptDecodingError "Sender key file is malformed."))
  /\ (forall dk sk,
        read_private_key private_text = Ok dk ->
        read_public_key sender_text = Ok sk ->
        exists plaintext verified,
          decrypt_and_verify blob sender_text private_text
          = Ok (plaintext, verified)).
Proof.
  unfold decrypt_and_verify.
  split; [| split].
  - intros e ->. reflexivity.
  - intros dk e -> ->. reflexivity.
  - intros dk sk -> ->.
    cbn [try_except bind].
    destruct (framed <- rs_decode 8 blob ;; decode_message framed);
      eexists; eexists; reflexivity.
Qed.

(** X12. [encrypt_and_sign] reads the recipient keyfile first, then the
    signer keyfile, and reports each failure, and any failure of
    [encrypt_message], as a [FinCryptDecodingError] of its own; an
    exception of [sign_message] is not wrapped and leaves the function
    as it is. *)
Theorem encrypt_and_sign_error_reports
  (e : entropy) (message : bytes) (recipient_text signer_text : string) :
  (forall err, read_public_key recipient_text = Raise err ->
     encrypt_and_sign e message recipient_text signer_text
     = Raise (FinCryptDecodingError "Recipient keyfile was malformed."))
  /\ (forall pk err,
        read_public_key recipient_text = Ok pk ->
        read_private_key signer_text = Raise err ->
        encrypt_and_sign e message recipient_text signer_text
        = Raise (FinCryptDecodingError "Private key file is malformed."))
  /\ (forall pk sk err,
        read_public_key recipient_text = Ok pk ->
        read_private_key signer_text = Ok sk ->
        encrypt_message e (kx pk) (ky pk) message = Raise err ->
        encrypt_and_sign e message recipient_text signer_text
        = Raise (FinCryptDecodingError
                   "Unknown error encountered when encrypting message."))
  /\ (forall pk sk encrypted err,
        read_public_key recipient_text = Ok pk ->
        read_private_key signer_text = Ok sk ->
        encrypt_message e (kx pk) (ky pk) message = Ok encrypted ->
        sign_message (ecdsa_entropy e) (k sk) message = Raise err ->
        encrypt_and_sign e message recipient_text signer_text = Raise err).
Proof.
  unfold encrypt_and_sign.
  split; [| split; [| split]].
  - intros err ->. reflexivity.
  - intros pk err -> ->. reflexivity.
  - intros pk sk err Hpk Hsk Henc.
    rewrite Hpk, Hsk.
    cbn [try_except bind].
    rewrite Henc.
    reflexivity.
  - intros pk sk [encrypted_key blocks] err Hpk Hsk Henc Hsign.
    rewrite Hpk, Hsk.
    cbn [try_except bind].
    rewrite Henc.
    cbn [try_except bind].
    rewrite Hsign.
    reflexivity.
Qed.

(** X13. When the keyfiles and the envelope are read and
    [decrypt_message] returns a plaintext, [decrypt_and_verify] returns
    that plaintext whatever the signature check says: the flag is true
    exactly when [authenticate_message] returns true, and a plaintext
    that failed verification is still handed to the caller. *)
Theorem decrypt_and_verify_returns_unverified_plaintext
  (blob : bytes) (sender_text private_text : string)
  (dk : private_key) (sk : public_key) (env : fincrypt_message) (m : bytes) :
  read_private_key private_text = Ok dk ->
  read_public_key sender_text = Ok sk ->
  open_envelope blob = Ok env ->
  decrypt_message (k dk) (env_key env) (env_message env) = Ok m ->
  exists verified,
    decrypt_and_verify blob sender_text private_text = Ok (Some m, verified)
    /\ (verified = true <->
        authenticate_message (kx sk) (ky sk) (Some m) (env_signature env)
        = Ok true).
Proof.
  intros Hpriv Hpub Henv Hdec.
  unfold decrypt_and_verify.
  rewrite Hpriv, Hpub.
  cbn [try_except bind].
  fold (open_envelope blob).
  rewrite Henv, Hdec.
  destruct (authenticate_message (kx sk) (ky sk) (Some m) (env_signature env))
    as [verdict | err].
  - exists verdict.
    split; [reflexivity |].
    split; [intros ->; reflexivity | intro H; injection H as ->; reflexivity].
  - exists false.
    split; [reflexivity |].
    split; discriminate.
Qed.

Lemma authenticate_short_signature (kx ky : Z) (plaintext : option bytes)
  (sig : list Z) :
  (List.length sig < 2)%nat ->
  exists err, authenticate_message kx ky plaintext sig = Raise err.
Proof.
  intro Hlen.
  unfold authenticate_message.
  destruct (sha3_512_digest plaintext) as [digest | err];
    [| exists err; reflexivity].
  cbn [bind].
  destruct (get_blocks digest 1024) as [block | err];
    [| exists err; reflexivity].
  cbn [bind].
  destruct sig as [| s0 [| s1 sig]];
    [exists IndexError; reflexivity | exists IndexError; reflexivity |].
  cbn [List.length] in Hlen. lia.
Qed.

(** X14. An envelope whose signature holds fewer than two integers is
    never verified: the missing item raises [IndexError] inside the
    [try], and the flag returned is false. *)
Theorem short_signature_is_never_verified
  (blob : bytes) (sender_text private_text : string)
  (dk : private_key) (sk : public_key) (env : fincrypt_message) :
  read_private_key private_text = Ok dk ->
  read_public_key sender_text = Ok sk ->
  open_envelope blob = Ok env ->
  (List.length (env_signature env) < 2)%nat ->
  exists plaintext,
    decrypt_and_verify blob sender_text private_text = Ok (plaintext, false).
Proof.
  intros Hpriv Hpub Henv Hlen.
  unfold decrypt_and_verify.
  rewrite Hpriv, Hpub.
  cbn [try_except bind].
  fold (open_envelope blob).
  rewrite Henv.
  eexists.
  match goal with
  | |- context [authenticate_message ?a ?b ?c ?d] =>
      destruct (authenticate_short_signature a b c d Hlen) as (err & ->)
  end.
  reflexivity.
Qed.

(** X15. [decrypt_message] needs two integers in the encrypted key: with
    fewer it raises [IndexError] before the shared secret is recovered;
    further integers are ignored. *)
Theorem decrypt_message_key_arity
  (k : Z) (encrypted_key : list Z) (encrypted_message : bytes) :
  ((List.length encrypted_key < 2)%nat ->
   decrypt_message k encrypted_key encrypted_message = Raise IndexError)
  /\ (forall rx ry more,
        encrypted_key = rx :: ry :: more ->
        decrypt_message k encrypted_key encrypted_message
        = decrypt_message k [rx; ry] encrypted_message).
Proof.
  split.
  - intro Hlen.
    destruct encrypted_key as [| rx [| ry more]];
      [reflexivity | reflexivity | cbn [List.length] in Hlen; lia].
  - intros rx ry more ->. reflexivity.
Qed.

End TopLevel.

Section MoreContracts.
Context {P : Primitives}.
Variable corresponds : Z -> Z -> Z -> Prop.

Hypothesis sha_length :
  forall data : bytes, List.length (SHA3_512 data) = 64%nat.

Hypothesis shake_length :
  forall (data : bytes) (n : nat), List.length (SHAKE256 data n) = n.

Hypothesis aes_round_trip :
  forall key iv : bytes,
    List.length key = 32%nat -> List.length iv = 16%nat ->
    exists mode,
      AESModeOfOperationCBC key iv = Ok mode
      /\ forall plain, exists cipher,
           Encrypter_feed mode plain = Ok cipher
           /\ Decrypter_feed mode cipher = Ok plain.

Hypothesis ecies_agree :
  forall u k kx ky : Z,
    corresponds k kx ky ->
    exists R sx,
      ecies_exchange u kx ky = Ok (R, sx)
      /\ ecies_recover (fst R) (snd R) k = Ok sx.

Hypothesis ecdsa_valid :
  forall u k kx ky num : Z,
    corresponds k kx ky -> 0 <= num < 2 ^ 512 ->
    exists r s,
      ecdsa_sign u num k = Ok (r, s)
      /\ ecdsa_validate r s num kx ky = Ok true.

(** X16. A signature made by [sign_message] with a private scalar is
    accepted by [authenticate_message] for the same message and the
    corresponding public point, whatever the random draw of the
    signer. *)
Theorem authenticate_message_accepts_sign_message
  (u k kx ky : Z) (m : bytes) :
  corresponds k kx ky ->
  exists sig,
    sign_message u k m = Ok sig
    /\ authenticate_message kx ky (Some m) [fst sig; snd sig] = Ok true.
Proof.
  apply (sign_then_authenticate corresponds sha_length ecdsa_valid).
Qed.

(** X17. [decrypt_message] with the private scalar inverts
    [encrypt_message] to the corresponding public point: the encrypted
    key and blocks that [encrypt_message] returns decrypt to the message,
    for every message and every random draw. *)
Theorem decrypt_message_inverts_encrypt_message
  (e : entropy) (k kx ky : Z) (m : bytes) :
  corresponds k kx ky ->
  exists encrypted_key blocks,
    encrypt_message e kx ky m = Ok (encrypted_key, blocks)
    /\ decrypt_message k [fst encrypted_key; snd encrypted_key] blocks = Ok m.
Proof.
  apply (encrypt_then_decrypt corresponds sha_length shake_length
           aes_round_trip ecies_agree).
Qed.

(** X18. [decrypt_message] has no integrity check of its own: whenever
    the shared secret is recovered and the cipher returns at least 32
    bytes, whatever they are, a plaintext of 32 bytes less is returned;
    when the cipher returns fewer than 32 bytes, [ValueError] is
    raised. *)
Theorem decrypt_message_accepts_any_long_block
  (k rx ry sx : Z) (more : list Z) (c plain : bytes) (mode : cbc_mode) :
  ecies_recover rx ry k = Ok sx ->
  AESModeOfOperationCBC (aes_key_of (key_material sx)) (iv_of (key_material sx))
  = Ok mode ->
  Decrypter_feed mode c = Ok plain ->
  (32 <= len plain ->
   exists m, decrypt_message k (rx :: ry :: more) c = Ok m
             /\ len m = len plain - 32)
  /\ (len plain < 32 ->
      decrypt_message k (rx :: ry :: more) c = Raise ValueError).
Proof.
  intros Hrec Hmode Hfeed.
  rewrite decrypt_message_key_material, Hrec.
  cbn [bind].
  rewrite Hmode.
  cbn [bind].
  rewrite Hfeed.
  cbn [bind].
  split.
  - intro Hlen.
    apply (oaep_unpad_value shake_length); lia.
  - intro Hlen.
    apply oaep_unpad_short; exact Hlen.
Qed.

(** X19. [oaep_unpad] inverts [oaep_pad] for every [append_length] of at
    least one, not only for the default 32, and the padded block is
    [append_length] bytes longer than the message. *)
Theorem oaep_unpad_inverts_oaep_pad_any_length
  (rand : Z) (m : bytes) (append_length : Z) :
  1 <= append_length ->
  exists padded,
    oaep_pad rand m append_length = Ok padded
    /\ len padded = len m + append_length
    /\ oaep_unpad padded append_length = Ok m.
Proof.
  intro Ha.
  apply (oaep_round_trip shake_length); lia.
Qed.

(** X20. With [append_length = 0] the slices [data[:-0]] and
    [data[-0:]] are the empty string and the whole block: [oaep_unpad]
    then raises [OverflowError] on every block that has a non-zero
    byte. *)
Theorem oaep_unpad_zero_append_length (data : bytes) :
  from_bytes_little data <> 0 ->
  oaep_unpad data 0 = Raise OverflowError.
Proof.
  intro Hnz.
  pose proof (from_bytes_little_range data) as Hrange.
  pose proof (len_nonneg data) as Hlen.
  unfold oaep_unpad.
  change (- 0) with 0.
  replace (slice_to data 0) with (@nil byte)
    by (unfold slice_to, slice_bound; cbn; rewrite Z.min_l by lia; reflexivity).
  replace (slice_from data 0) with data
    by (unfold slice_from, slice_bound; cbn; rewrite Z.min_l by lia; reflexivity).
  cbn [from_bytes_little].
  rewrite to_bytes_little_fits
    by (first [lia | split; [lia | apply Z.pow_pos_nonneg; lia]]).
  cbn [bind].
  change (Z.to_nat 0) with 0%nat.
  assert (Hd : SHAKE256 (digits_little (Z.to_nat (len data - 0)) 0) 0 = []).
  { apply length_zero_iff_nil, shake_length. }
  rewrite Hd.
  cbn [from_bytes_little].
  rewrite Z.lxor_0_r.
  unfold to_bytes_little at 1.
  change (0 <? 0) with false.
  change (256 ^ 0) with 1.
  destruct (Z.ltb_spec (from_bytes_little data) 0); [lia |].
  destruct (Z.leb_spec 1 (from_bytes_little data)); [reflexivity | lia].
Qed.

End MoreContracts.

(** ** The text armor written by [encrypt_text] and read by [decrypt_text] *)

(** The greedy [+] settles on the longest run when nothing longer
    matches and the rest of the expression matches after it. *)
Lemma match_plus_longest (R : Type) (p : ascii -> bool) (run s : string)
  (cont : string -> option R) (res : R) :
  all_chars p run = true -> run <> EmptyString ->
  match_plus R p s cont = None ->
  cont s = Some res ->
  match_plus R p (run ++ s) cont = Some res.
Proof.
  induction run as [| c run IH]; intros Hall Hne Hbeyond Hcont.
  - contradiction Hne; reflexivity.
  - cbn [all_chars] in Hall.
    apply andb_true_iff in Hall as (Hc & Hall).
    cbn [append match_plus].
    rewrite Hc.
    destruct run as [| d run].
    + cbn [append]. rewrite Hbeyond. exact Hcont.
    + rewrite IH; [reflexivity | exact Hall | discriminate | exact Hbeyond | exact Hcont].
Qed.

Lemma footer_matches (g : list string) :
  match_regex (list string) footer_pattern
    (String newline message_footer_line) g matched
  = Some g.
Proof. reflexivity. Qed.

Lemma body_matches (run : string) (last : ascii) (g : list string) :
  all_chars body_class run = true -> run <> EmptyString -> last <> newline ->
  match_regex (list string) (Cat body_pattern footer_pattern)
    (run ++ String last (String newline message_footer_line)) g matched
  = Some (g ++ [(run ++ String last EmptyString)%string]).
Proof.
  intros Hall Hne Hlast.
  assert (Hnl : not_newline last = true).
  { unfold not_newline.
    destruct (Ascii.eqb_spec last newline); [contradiction | reflexivity]. }
  set (tail := String newline message_footer_line).
  set (text := (run ++ String last tail)%string).
  change (match_plus (list string) body_class text
            (fun s1 =>
               match_regex (list string) (Class not_newline) s1 g
                 (fun s' g' =>
                    match_regex (list string) footer_pattern s'
                      (g' ++ [consumed text s']) matched))
          = Some (g ++ [(run ++ String last EmptyString)%string])).
  unfold text at 1.
  apply match_plus_longest; [exact Hall | exact Hne | |].
  - cbn [match_plus].
    destruct (body_class last); reflexivity.
  - cbn [match_regex].
    rewrite Hnl.
    unfold tail at 1.
    rewrite footer_matches.
    do 2 f_equal.
    unfold text.
    replace (run ++ String last tail)%string
      with ((run ++ String last EmptyString) ++ tail)%string
      by (rewrite append_assoc; reflexivity).
    rewrite consumed_append.
    reflexivity.
Qed.

(** The armor of a message is accepted whenever the body is a run of
    characters of the class followed by a character that is not a
    newline. *)
Lemma message_armor_accepted (run : string) (last : ascii) :
  all_chars body_class run = true -> run <> EmptyString -> last <> newline ->
  strip_headers
    (message_header_line
     ++ String newline (run ++ String last (String newline message_footer_line)))
  = (Some "BEGIN FINCRYPT MESSAGE"%string,
     Some (run ++ String last EmptyString)%string).
Proof.
  intros Hall Hne Hlast.
  set (body_text := (run ++ String last (String newline message_footer_line))%string).
  assert (HM : re_match armor_pattern
                 (message_header_line ++ String newline body_text)
               = Some ["BEGIN FINCRYPT MESSAGE"%string;
                       (run ++ String last EmptyString)%string]).
  { unfold re_match.
    set (after_label := (" " ++ repeat_char "-" 26 ++ String newline body_text)%string).
    set (label_text := ("BEGIN FINCRYPT MESSAGE" ++ after_label)%string).
    change (match_plus (list string) dash
              (repeat_char "-" 26 ++ String " " label_text)
              (fun s1 =>
                 match_regex (list string)
                   (cat [Lit " ";
                         Group (Cat (Lit "BEGIN FINCRYPT ") label_tail);
                         Lit " "; Plus dash; Class (Ascii.eqb newline);
                         body_pattern; Class (Ascii.eqb newline); Plus dash;
                         Lit " END FINCRYPT "; label_tail; Lit " "; Plus dash])
                   s1 [] matched)
            = Some ["BEGIN FINCRYPT MESSAGE"%string;
                    (run ++ String last EmptyString)%string]).
    apply match_plus_longest; [reflexivity | discriminate | reflexivity |].
    change (match_plus (list string) dash
              (repeat_char "-" 26 ++ String newline body_text)
              (fun s1 =>
                 match_regex (list string)
                   (Cat (Class (Ascii.eqb newline)) (Cat body_pattern footer_pattern))
                   s1 ([] ++ [consumed label_text after_label]) matched)
            = Some ["BEGIN FINCRYPT MESSAGE"%string;
                    (run ++ String last EmptyString)%string]).
    apply match_plus_longest; [reflexivity | discriminate | reflexivity |].
    change (match_regex (list string) (Cat body_pattern footer_pattern)
              body_text ([] ++ [consumed label_text after_label]) matched
            = Some ["BEGIN FINCRYPT MESSAGE"%string;
                    (run ++ String last EmptyString)%string]).
    unfold body_text at 1.
    rewrite body_matches by assumption.
    unfold label_text.
    rewrite consumed_append.
    reflexivity. }
  unfold strip_headers.
  rewrite HM.
  reflexivity.
Qed.

Lemma all_chars_append (p : ascii -> bool) (a b : string) :
  all_chars p (a ++ b) = all_chars p a && all_chars p b.
Proof.
  induction a as [| c a IH]; cbn [append all_chars]; [reflexivity |].
  rewrite IH. apply andb_assoc.
Qed.

Lemma all_chars_weaken (p q : ascii -> bool) (s : string) :
  (forall c, p c = true -> q c = true) ->
  all_chars p s = true -> all_chars q s = true.
Proof.
  intro Hpq.
  induction s as [| c s IH]; cbn [all_chars]; [reflexivity |].
  intro H.
  apply andb_true_iff in H as (Hc & Hs).
  rewrite (Hpq c Hc), (IH Hs).
  reflexivity.
Qed.

Lemma all_chars_of_list (p : ascii -> bool) (l : list ascii) :
  all_chars p (string_of_list_ascii l) = forallb p l.
Proof.
  induction l as [| c l IH]; cbn; [| rewrite IH]; reflexivity.
Qed.

Lemma base64url_char_facts (c : ascii) :
  base64url_char c = true ->
  body_class c = true /\ c <> newline /\ is_ascii c = true.
Proof.
  destruct c as [[] [] [] [] [] [] [] []]; cbn; intro H;
    try discriminate H; repeat split; discriminate.
Qed.

Lemma string_of_list_ascii_app (a b : list ascii) :
  string_of_list_ascii (a ++ b)
  = (string_of_list_ascii a ++ string_of_list_ascii b)%string.
Proof.
  induction a as [| c a IH]; cbn; [| rewrite IH]; reflexivity.
Qed.

Lemma append_nil_r_plain (s : string) : (s ++ EmptyString)%string = s.
Proof.
  induction s as [| c s IH]; cbn [append]; [| rewrite IH]; reflexivity.
Qed.

Lemma concat_empty_sep (pieces : list (list ascii)) :
  String.concat EmptyString (map string_of_list_ascii pieces)
  = string_of_list_ascii (List.concat pieces).
Proof.
  induction pieces as [| a pieces IH]; [reflexivity |].
  cbn [map List.concat].
  rewrite string_of_list_ascii_app, <- IH.
  destruct pieces as [| b pieces]; cbn [map String.concat append].
  - rewrite append_nil_r_plain. reflexivity.
  - reflexivity.
Qed.

Lemma firstn_In_any {A : Type} (n : nat) (l : list A) (x : A) :
  In x (firstn n l) -> In x l.
Proof.
  intro H.
  rewrite <- (firstn_skipn n l).
  apply in_or_app; left; exact H.
Qed.

Lemma skipn_In_any {A : Type} (n : nat) (l : list A) (x : A) :
  In x (skipn n l) -> In x l.
Proof.
  intro H.
  rewrite <- (firstn_skipn n l).
  apply in_or_app; right; exact H.
Qed.

Lemma text_lines_value (message : string) :
  text_lines message
  = Ok (map (fun i => string_of_list_ascii
                        (firstn 76 (skipn (i * 76) (list_ascii_of_string message))))
            (seq 0 (Z.to_nat ((len (list_ascii_of_string message) + 76 - 1) / 76)))).
Proof.
  unfold text_lines.
  rewrite range_positive_step by (try apply len_nonneg; lia).
  cbn [bind].
  rewrite map_map.
  f_equal.
  apply map_ext.
  intro i.
  f_equal.
  change (Z.to_nat 76) with 76%nat.
  replace (Z.of_nat (i * 76) + 76) with (Z.of_nat (i * 76 + 76)) by lia.
  apply slice_firstn_skipn.
Qed.

Lemma text_lines_cover (message : string) :
  all_chars base64url_char message = true ->
  message <> EmptyString ->
  exists lines,
    text_lines message = Ok lines
    /\ lines <> []
    /\ Forall (fun line => line <> EmptyString
                           /\ all_chars base64url_char line = true) lines
    /\ String.concat EmptyString lines = message.
Proof.
  intros Hall Hne.
  rewrite text_lines_value.
  set (chars := list_ascii_of_string message).
  assert (Hchars : forallb base64url_char chars = true).
  { rewrite <- all_chars_of_list. unfold chars.
    rewrite string_of_list_ascii_of_string. exact Hall. }
  assert (Hlen : 0 < len chars).
  { unfold len, chars.
    destruct message; [contradiction Hne; reflexivity | cbn; lia]. }
  set (n := Z.to_nat ((len chars + 76 - 1) / 76)).
  pose proof (Z.div_mod (len chars + 76 - 1) 76 ltac:(lia)) as Hdm.
  pose proof (Z.mod_pos_bound (len chars + 76 - 1) 76 ltac:(lia)) as Hmod.
  assert (Hq : 0 <= (len chars + 76 - 1) / 76) by (apply Z.div_pos; lia).
  eexists; split; [reflexivity |].
  split; [| split].
  - assert (1 <= n)%nat by (unfold n; lia).
    destruct n; [lia | discriminate].
  - apply Forall_forall.
    intros line Hline.
    apply in_map_iff in Hline as (i & <- & Hi).
    apply in_seq in Hi.
    assert (Hskip : (i * 76 < List.length chars)%nat).
    { unfold n in Hi. unfold len in Hdm, Hmod, Hq, Hi.
      clearbody chars.
      set (quot := (Z.of_nat (List.length chars) + 76 - 1) / 76) in *.
      set (rem := (Z.of_nat (List.length chars) + 76 - 1) mod 76) in *.
      clearbody quot rem.
      lia. }
    split.
    + destruct (skipn (i * 76) chars) as [| c rest] eqn:E.
      * apply (f_equal (@List.length ascii)) in E.
        rewrite length_skipn in E. cbn in E. lia.
      * discriminate.
    + rewrite all_chars_of_list.
      apply forallb_forall.
      intros c Hc.
      apply (proj1 (forallb_forall _ _) Hchars).
      apply (skipn_In_any (i * 76)), (firstn_In_any 76), Hc.
  - rewrite <- (map_map (fun i => firstn 76 (skipn (i * 76) chars))
                        string_of_list_ascii).
    rewrite concat_empty_sep, pieces_concat.
    + apply string_of_list_ascii_of_string.
    + pose proof (block_count_covers (len chars) 76 ltac:(lia) ltac:(lia)) as Hcover.
      unfold len in Hcover at 1.
      rewrite Nat2Z.id in Hcover.
      exact Hcover.
Qed.

Lemma concat_cons_empty (x : string) (pieces : list string) :
  String.concat EmptyString (x :: pieces)
  = (x ++ String.concat EmptyString pieces)%string.
Proof.
  destruct pieces as [| y pieces]; cbn [String.concat append].
  - rewrite append_nil_r_plain. reflexivity.
  - reflexivity.
Qed.

Lemma split_char_no_sep (sep : ascii) (s : string) :
  all_chars (fun c => negb (Ascii.eqb c sep)) s = true ->
  split_char sep s = [s].
Proof.
  induction s as [| c s IH]; cbn [all_chars split_char]; [reflexivity |].
  intro H.
  apply andb_true_iff in H as (Hc & Hs).
  apply negb_true_iff in Hc.
  rewrite Hc, (IH Hs).
  reflexivity.
Qed.

Lemma split_char_app (sep : ascii) (a b : string) :
  all_chars (fun c => negb (Ascii.eqb c sep)) a = true ->
  split_char sep (a ++ String sep b) = a :: split_char sep b.
Proof.
  induction a as [| c a IH]; cbn [all_chars append split_char].
  - intros _. rewrite Ascii.eqb_refl. reflexivity.
  - intro H.
    apply andb_true_iff in H as (Hc & Ha).
    apply negb_true_iff in Hc.
    rewrite Hc, (IH Ha).
    reflexivity.
Qed.

Lemma base64url_line_no_newline (line : string) :
  all_chars base64url_char line = true ->
  all_chars (fun c => negb (Ascii.eqb c newline)) line = true.
Proof.
  apply all_chars_weaken.
  intros c Hc.
  destruct (base64url_char_facts c Hc) as (_ & Hn & _).
  apply negb_true_iff.
  destruct (Ascii.eqb_spec c newline); [contradiction | reflexivity].
Qed.

(** Joining lines with newlines and removing the newlines again. *)
Lemma split_join_lines (lines : list string) :
  Forall (fun line => line <> EmptyString
                      /\ all_chars base64url_char line = true) lines ->
  String.concat EmptyString
    (split_char newline (String.concat (String newline EmptyString) lines))
  = String.concat EmptyString lines.
Proof.
  induction lines as [| x lines IH]; intro Hall; [reflexivity |].
  inversion Hall as [| ? ? (Hx & Hxc) Hrest]; subst.
  destruct lines as [| y lines].
  - cbn [String.concat].
    rewrite split_char_no_sep by (apply base64url_line_no_newline; exact Hxc).
    reflexivity.
  - change (String.concat (String newline EmptyString) (x :: y :: lines))
      with (x ++ String newline
                   (String.concat (String newline EmptyString) (y :: lines)))%string.
    rewrite split_char_app by (apply base64url_line_no_newline; exact Hxc).
    rewrite !concat_cons_empty, (IH Hrest), concat_cons_empty.
    reflexivity.
Qed.

Lemma joined_lines_in_class (lines : list string) :
  Forall (fun line => line <> EmptyString
                      /\ all_chars base64url_char line = true) lines ->
  all_chars body_class (String.concat (String newline EmptyString) lines) = true.
Proof.
  induction lines as [| x lines IH]; intro Hall; [reflexivity |].
  inversion Hall as [| ? ? (Hx & Hxc) Hrest]; subst.
  assert (Hclass : all_chars body_class x = true).
  { revert Hxc. apply all_chars_weaken.
    intros c Hc. exact (proj1 (base64url_char_facts c Hc)). }
  destruct lines as [| y lines]; [exact Hclass |].
  change (String.concat (String newline EmptyString) (x :: y :: lines))
    with (x ++ String newline
                 (String.concat (String newline EmptyString) (y :: lines)))%string.
  rewrite all_chars_append, Hclass.
  cbn [all_chars andb].
  rewrite (IH Hrest).
  reflexivity.
Qed.

Lemma line_last_char (line : string) :
  line <> EmptyString -> all_chars base64url_char line = true ->
  exists run last,
    line = (run ++ String last EmptyString)%string /\ last <> newline.
Proof.
  induction line as [| c line IH]; intros Hne Hall;
    [contradiction Hne; reflexivity |].
  cbn [all_chars] in Hall.
  apply andb_true_iff in Hall as (Hc & Hall).
  destruct line as [| d line].
  - exists EmptyString, c.
    split; [reflexivity | exact (proj1 (proj2 (base64url_char_facts c Hc)))].
  - destruct (IH ltac:(discriminate) Hall) as (run & last & Heq & Hlast).
    exists (String c run), last.
    split; [cbn [append]; rewrite <- Heq; reflexivity | exact Hlast].
Qed.

Lemma joined_lines_last_char (lines : list string) :
  lines <> [] ->
  Forall (fun line => line <> EmptyString
                      /\ all_chars base64url_char line = true) lines ->
  exists run last,
    String.concat (String newline EmptyString) lines
    = (run ++ String last EmptyString)%string
    /\ last <> newline.
Proof.
  induction lines as [| x lines IH]; intros Hne Hall;
    [contradiction Hne; reflexivity |].
  inversion Hall as [| ? ? (Hx & Hxc) Hrest]; subst.
  destruct lines as [| y lines].
  - exact (line_last_char x Hx Hxc).
  - destruct (IH ltac:(discriminate) Hrest) as (run & last & Heq & Hlast).
    exists (x ++ String newline run)%string, last.
    split; [| exact Hlast].
    change (String.concat (String newline EmptyString) (x :: y :: lines))
      with (x ++ String newline
                   (String.concat (String newline EmptyString) (y :: lines)))%string.
    rewrite Heq, append_assoc.
    reflexivity.
Qed.

Lemma joined_lines_length (lines : list string) :
  (String.length (String.concat EmptyString lines)
   <= String.length (String.concat (String newline EmptyString) lines))%nat.
Proof.
  induction lines as [| x lines IH]; [apply Nat.le_refl |].
  rewrite concat_cons_empty.
  destruct lines as [| y lines].
  - cbn [String.concat]. rewrite append_nil_r_plain. apply Nat.le_refl.
  - change (String.concat (String newline EmptyString) (x :: y :: lines))
      with (x ++ String newline
                   (String.concat (String newline EmptyString) (y :: lines)))%string.
    rewrite !length_append.
    cbn [String.length].
    lia.
Qed.

Lemma armor_message_round_trip (message : string) :
  all_chars base64url_char message = true ->
  (2 <= String.length message)%nat ->
  exists text body,
    armor_message message = Ok text
    /\ read_message text = Ok body
    /\ String.concat EmptyString (split_char newline body) = message.
Proof.
  intros Hall Hlen.
  assert (Hne : message <> EmptyString)
    by (intros ->; cbn in Hlen; lia).
  destruct (text_lines_cover message Hall Hne)
    as (lines & Hlines & Hnonempty & Hgood & Hconcat).
  destruct (joined_lines_last_char lines Hnonempty Hgood)
    as (run & last & Hjoined & Hlast).
  pose proof (joined_lines_in_class lines Hgood) as Hclass.
  pose proof (joined_lines_length lines) as Hlength.
  rewrite Hjoined in Hclass, Hlength.
  rewrite all_chars_append in Hclass.
  apply andb_true_iff in Hclass as (Hrun & _).
  assert (Hrun_ne : run <> EmptyString).
  { intros ->.
    rewrite Hconcat in Hlength.
    cbn in Hlength. lia. }
  exists (message_header_line
          ++ String newline (run ++ String last (String newline message_footer_line)))%string,
         (run ++ String last EmptyString)%string.
  split; [| split].
  - unfold armor_message.
    rewrite Hlines.
    cbn [bind].
    rewrite Hjoined.
    f_equal.
    fold message_header_line message_footer_line.
    cbn [append].
    rewrite append_assoc.
    reflexivity.
  - unfold read_message.
    rewrite (message_armor_accepted run last Hrun Hrun_ne Hlast).
    reflexivity.
  - rewrite <- Hjoined, split_join_lines by exact Hgood.
    exact Hconcat.
Qed.

(** X21. The text armor round trip: for a base64url text of at least
    two characters, what [encrypt_text] writes (header line, the text in
    lines of 76 characters, footer line) is accepted by [read_message],
    and the body that it returns, with its newlines removed as
    [decrypt_text] does, is the text again. *)
Theorem read_message_inverts_armor_message (message : string) :
  all_chars base64url_char message = true ->
  (2 <= String.length message)%nat ->
  exists text body,
    armor_message message = Ok text
    /\ read_message text = Ok body
    /\ String.concat EmptyString (split_char newline body) = message.
Proof.
  exact (armor_message_round_trip message).
Qed.

(** ** The command-line operations *)

Section CommandLineProperties.
Context {P : Primitives} {C : Codecs}.

Lemma decrypt_and_report_verified (blob : bytes) (sender_key private_key : string)
  (m data : bytes) :
  decrypt_and_verify blob sender_key private_key = Ok (Some m, true) ->
  zlib_decompress m = Ok data ->
  decrypt_and_report blob sender_key private_key
  = {| stdout_buffer := data; stderr := EmptyString |}.
Proof.
  intros Hdv Hz.
  unfold decrypt_and_report.
  rewrite Hdv, Hz.
  reflexivity.
Qed.

(** X24. [decrypt_binary] writes a plaintext that failed verification:
    when the keyfiles and the envelope are read, [decrypt_message]
    returns a plaintext and [authenticate_message] does not return true,
    the decompressed plaintext goes to the standard output all the
    same, and the only trace of the failure is the line written to the
    standard error. *)
Theorem decrypt_binary_writes_unverified_plaintext
  (blob : bytes) (sender_text private_text : string)
  (dk : private_key) (sk : public_key) (env : fincrypt_message)
  (m data : bytes) :
  read_private_key private_text = Ok dk ->
  read_public_key sender_text = Ok sk ->
  open_envelope blob = Ok env ->
  decrypt_message (k dk) (env_key env) (env_message env) = Ok m ->
  authenticate_message (kx sk) (ky sk) (Some m) (env_signature env) <> Ok true ->
  zlib_decompress m = Ok data ->
  decrypt_binary (Some sender_text) (Some private_text) blob
  = Returned
      {| stdout_buffer := data;
         stderr := ("Verification failed. Message is not intact."
                    ++ String newline EmptyString)%string |}.
Proof.
  intros Hpriv Hpub Henv Hdec Hauth Hz.
  unfold decrypt_binary, decrypt_and_report, decrypt_and_verify.
  rewrite Hpriv, Hpub.
  cbn [try_except bind].
  fold (open_envelope blob).
  rewrite Henv, Hdec.
  destruct (authenticate_message (kx sk) (ky sk) (Some m) (env_signature env))
    as [[|] | err]; [contradiction Hauth; reflexivity | |];
    rewrite Hz; reflexivity.
Qed.

(** X25. Provided that hashing [None] raises: when the keyfiles are
    read and the blob cannot be opened or decrypted, [decrypt_binary]
    writes nothing to the standard output and both lines,
    ["Decryption failed."] and ["Verification failed. Message is not
    intact."], to the standard error. *)
Theorem decrypt_binary_reports_failed_decryption
  (blob : bytes) (sender_text private_text : string)
  (dk : private_key) (sk : public_key) :
  hash_rejects_None ->
  read_private_key private_text = Ok dk ->
  read_public_key sender_text = Ok sk ->
  ((exists err, open_envelope blob = Raise err)
   \/ (exists env err,
         open_envelope blob = Ok env
         /\ decrypt_message (k dk) (env_key env) (env_message env) = Raise err)) ->
  decrypt_binary (Some sender_text) (Some private_text) blob
  = Returned
      {| stdout_buffer := [];
         stderr := ("Decryption failed." ++ String newline
                      ("Verification failed. Message is not intact."
                       ++ String newline EmptyString))%string |}.
Proof.
  intros Hnone Hpriv Hpub Hfail.
  unfold decrypt_binary, decrypt_and_report, decrypt_and_verify.
  rewrite Hpriv, Hpub.
  cbn [try_except bind].
  fold (open_envelope blob).
  destruct Hfail as [(err & ->) | (env & err & -> & ->)]; [reflexivity |].
  destruct (authenticate_None (kx sk) (ky sk) (env_signature env) Hnone)
    as (err' & ->).
  reflexivity.
Qed.

(** X26. [decrypt_text] and [decrypt_binary] check the sender keyfile
    path before the private one and raise [FileNotFoundError]; once both
    files exist they return, and a keyfile that cannot be read only
    gives its message on the standard error, the private keyfile
    first. *)
Theorem decrypt_operations_report_keyfiles
  (infile : bytes) (text : string) (sender_text private_text : string) :
  (forall private_keyfile,
     decrypt_binary None private_keyfile infile
     = FileNotFound "Sender keyfile does not exist."
     /\ decrypt_text None private_keyfile text
        = FileNotFound "Sender keyfile does not exist.")
  /\ decrypt_binary (Some sender_text) None infile
     = FileNotFound "Private keyfile does not exist."
  /\ decrypt_text (Some sender_text) None text
     = FileNotFound "Private keyfile does not exist."
  /\ (forall err, read_private_key private_text = Raise err ->
        decrypt_binary (Some sender_text) (Some private_text) infile
        = Returned
            {| stdout_buffer := [];
               stderr := ("Private key file is malformed."
                          ++ String newline EmptyString)%string |})
  /\ (forall dk err,
        read_private_key private_text = Ok dk ->
        read_public_key sender_text = Raise err ->
        decrypt_binary (Some sender_text) (Some private_text) infile
        = Returned
            {| stdout_buffer := [];
               stderr := ("Sender key file is malformed."
                          ++ String newline EmptyString)%string |}).
Proof.
  split; [intro; split; reflexivity |].
  split; [reflexivity |].
  split; [reflexivity |].
  split.
  - intros err Hpriv.
    unfold decrypt_binary, decrypt_and_report, decrypt_and_verify.
    rewrite Hpriv.
    reflexivity.
  - intros dk err Hpriv Hpub.
    unfold decrypt_binary, decrypt_and_report, decrypt_and_verify.
    rewrite Hpriv, Hpub.
    reflexivity.
Qed.

(** The contracts of the primitive layer and of the codecs. *)
Variable corresponds : Z -> Z -> Z -> Prop.

Hypothesis sha_length :
  forall data : bytes, List.length (SHA3_512 data) = 64%nat.

Hypothesis shake_length :
  forall (data : bytes) (n : nat), List.length (SHAKE256 data n) = n.

Hypothesis aes_round_trip :
  forall key iv : bytes,
    List.length key = 32%nat -> List.length iv = 16%nat ->
    exists mode,
      AESModeOfOperationCBC key iv = Ok mode
      /\ forall plain, exists cipher,
           Encrypter_feed mode plain = Ok cipher
           /\ Decrypter_feed mode cipher = Ok plain.

Hypothesis ecies_agree :
  forall u k kx ky : Z,
    corresponds k kx ky ->
    exists R sx,
      ecies_exchange u kx ky = Ok (R, sx)
      /\ ecies_recover (fst R) (snd R) k = Ok sx.

Hypothesis ecdsa_valid :
  forall u k kx ky num : Z,
    corresponds k kx ky -> 0 <= num < 2 ^ 512 ->
    exists r s,
      ecdsa_sign u num k = Ok (r, s)
      /\ ecdsa_validate r s num kx ky = Ok true.

Hypothesis der_round_trip :
  forall env : fincrypt_message,
    exists encoded, encode_der env = Ok encoded /\ decode_message encoded = Ok env.

Hypothesis rs_round_trip :
  forall data : bytes,
    exists framed, rs_encode 8 data = Ok framed /\ rs_decode 8 framed = Ok data.

Hypothesis framed_not_empty :
  forall (env : fincrypt_message) (encoded framed : bytes),
    encode_der env = Ok encoded -> rs_encode 8 encoded = Ok framed ->
    framed <> [].

Hypothesis zlib_round_trip :
  forall data : bytes, zlib_decompress (zlib_compress data) = Ok data.

Hypothesis b64_round_trip :
  forall data : bytes,
    urlsafe_b64decode (encode_utf8 (urlsafe_b64encode data)) = Ok data.

Hypothesis b64_alphabet :
  forall data : bytes,
    all_chars base64url_char (urlsafe_b64encode data) = true.

Hypothesis b64_length :
  forall data : bytes,
    data <> [] -> (2 <= String.length (urlsafe_b64encode data))%nat.

Lemma encrypt_and_sign_round_trip
  (e : entropy) (m : bytes)
  (A_pub A_priv B_pub B_priv : string)
  (a_pk b_pk : public_key) (a_sk b_sk : private_key) :
  read_public_key A_pub = Ok a_pk ->
  read_private_key A_priv = Ok a_sk ->
  corresponds (k a_sk) (kx a_pk) (ky a_pk) ->
  read_public_key B_pub = Ok b_pk ->
  read_private_key B_priv = Ok b_sk ->
  corresponds (k b_sk) (kx b_pk) (ky b_pk) ->
  exists blob,
    encrypt_and_sign e m B_pub A_priv = Ok blob
    /\ (exists env encoded,
          encode_der env = Ok encoded /\ rs_encode 8 encoded = Ok blob)
    /\ decrypt_and_verify blob A_pub B_priv = Ok (Some m, true).
Proof.
  intros HApub HApriv HA HBpub HBpriv HB.
  destruct (encrypt_then_decrypt corresponds sha_length shake_length
              aes_round_trip ecies_agree e _ _ _ m HB)
    as (encrypted_key & blocks & Henc & Hdec).
  destruct (sign_then_authenticate corresponds sha_length ecdsa_valid
              (ecdsa_entropy e) _ _ _ m HA)
    as (sig & Hsign & Hauth).
  set (env := {| env_message := blocks;
                 env_key := [fst encrypted_key; snd encrypted_key];
                 env_signature := [fst sig; snd sig] |}).
  destruct (der_round_trip env) as (encoded & Hder & Hdecode).
  destruct (rs_round_trip encoded) as (blob & Hrs & Hunrs).
  exists blob.
  split; [| split].
  - unfold encrypt_and_sign.
    rewrite HBpub, HApriv.
    cbn [try_except bind].
    rewrite Henc.
    cbn [try_except bind].
    rewrite Hsign.
    cbn [bind].
    fold env.
    rewrite Hder.
    cbn [bind].
    exact Hrs.
  - exists env, encoded. split; [exact Hder | exact Hrs].
  - unfold decrypt_and_verify.
    rewrite HBpriv, HApub.
    cbn [try_except bind].
    rewrite Hunrs.
    cbn [bind].
    rewrite Hdecode.
    unfold env.
    cbn [env_key env_message env_signature].
    rewrite Hdec, Hauth.
    reflexivity.
Qed.

(** X22. [decrypt_binary] inverts [encrypt_binary]: what
    [encrypt_binary] writes for a file, read by [decrypt_binary] with the
    sender's public and the recipient's private keyfile, puts the file
    contents on the standard output and nothing on the standard
    error. *)
Theorem decrypt_binary_inverts_encrypt_binary
  (e : entropy) (infile : bytes)
  (A_pub A_priv B_pub B_priv : string)
  (a_pk b_pk : public_key) (a_sk b_sk : private_key) :
  read_public_key A_pub = Ok a_pk ->
  read_private_key A_priv = Ok a_sk ->
  corresponds (k a_sk) (kx a_pk) (ky a_pk) ->
  read_public_key B_pub = Ok b_pk ->
  read_private_key B_priv = Ok b_sk ->
  corresponds (k b_sk) (kx b_pk) (ky b_pk) ->
  exists written,
    encrypt_binary e (Some B_pub) (Some A_priv) infile = Returned written
    /\ decrypt_binary (Some A_pub) (Some B_priv) written
       = Returned {| stdout_buffer := infile; stderr := EmptyString |}.
Proof.
  intros HApub HApriv HA HBpub HBpriv HB.
  destruct (encrypt_and_sign_round_trip e (zlib_compress infile)
              A_pub A_priv B_pub B_priv a_pk b_pk a_sk b_sk
              HApub HApriv HA HBpub HBpriv HB)
    as (blob & Henc & _ & Hdec).
  exists blob.
  split.
  - unfold encrypt_binary. rewrite Henc. reflexivity.
  - unfold decrypt_binary.
    rewrite (decrypt_and_report_verified blob A_pub B_priv
               (zlib_compress infile) infile Hdec (zlib_round_trip infile)).
    reflexivity.
Qed.

(** X23. [decrypt_text] inverts [encrypt_text]: the armored text that
    [encrypt_text] writes for a file, read by [decrypt_text] with the
    sender's public and the recipient's private keyfile, puts the file
    contents on the standard output and nothing on the standard
    error. *)
Theorem decrypt_text_inverts_encrypt_text
  (e : entropy) (infile : bytes)
  (A_pub A_priv B_pub B_priv : string)
  (a_pk b_pk : public_key) (a_sk b_sk : private_key) :
  read_public_key A_pub = Ok a_pk ->
  read_private_key A_priv = Ok a_sk ->
  corresponds (k a_sk) (kx a_pk) (ky a_pk) ->
  read_public_key B_pub = Ok b_pk ->
  read_private_key B_priv = Ok b_sk ->
  corresponds (k b_sk) (kx b_pk) (ky b_pk) ->
  exists written,
    encrypt_text e (Some B_pub) (Some A_priv) infile = Returned written
    /\ decrypt_text (Some A_pub) (Some B_priv) written
       = Returned {| stdout_buffer := infile; stderr := EmptyString |}.
Proof.
  intros HApub HApriv HA HBpub HBpriv HB.
  destruct (encrypt_and_sign_round_trip e (zlib_compress infile)
              A_pub A_priv B_pub B_priv a_pk b_pk a_sk b_sk
              HApub HApriv HA HBpub HBpriv HB)
    as (blob & Henc & (env & encoded & Hder & Hrs) & Hdec).
  pose proof (framed_not_empty env encoded blob Hder Hrs) as Hblob.
  destruct (armor_message_round_trip (urlsafe_b64encode blob)
              (b64_alphabet blob) (b64_length blob Hblob))
    as (text & body & Harmor & Hread & Hjoin).
  exists text.
  split.
  - unfold encrypt_text.
    rewrite Henc. cbn [bind]. rewrite Harmor. reflexivity.
  - unfold decrypt_text.
    rewrite Hread. cbn [bind]. rewrite Hjoin.
    unfold urlsafe_b64decode_str.
    assert (Hascii : all_chars is_ascii (urlsafe_b64encode blob) = true).
    { generalize (b64_alphabet blob). apply all_chars_weaken.
      intros c Hc. exact (proj2 (proj2 (base64url_char_facts c Hc))). }
    rewrite Hascii, b64_round_trip.
    rewrite (decrypt_and_report_verified blob A_pub B_priv
               (zlib_compress infile) infile Hdec (zlib_round_trip infile)).
    reflexivity.
Qed.

End CommandLineProperties.

(** ** The executable codecs meet their contracts *)

Module ToyCodecsFacts.
Import ToyCodecs.

Lemma zlib_round_trip (data : bytes) : decompress (compress data) = Ok data.
Proof. reflexivity. Qed.

Lemma b64_step (b : byte) (rest : string) :
  b64decode (encode_utf8 (b64encode [b] ++ rest))
  = match b64decode (encode_utf8 rest) with
    | Ok decoded => Ok (b :: decoded)
    | Raise e => Raise e
    end.
Proof.
  destruct b; reflexivity.
Qed.

Lemma b64_round_trip (data : bytes) :
  b64decode (encode_utf8 (b64encode data)) = Ok data.
Proof.
  induction data as [| b data IH]; [reflexivity |].
  change (b64encode (b :: data)) with (b64encode [b] ++ b64encode data)%string.
  rewrite b64_step, IH.
  reflexivity.
Qed.

Lemma b64_alphabet (data : bytes) :
  all_chars base64url_char (b64encode data) = true.
Proof.
  induction data as [| b data IH]; [reflexivity |].
  change (b64encode (b :: data)) with (b64encode [b] ++ b64encode data)%string.
  rewrite all_chars_append, IH, andb_true_r.
  destruct b; reflexivity.
Qed.

Lemma b64_length (data : bytes) :
  data <> [] -> (2 <= String.length (b64encode data))%nat.
Proof.
  destruct data as [| b data]; [intro H; contradiction H; reflexivity |].
  intros _.
  cbn [b64encode String.length].
  lia.
Qed.

Lemma framed_not_empty (env : fincrypt_message) (encoded framed : bytes) :
  Toy.enc_message env = Ok encoded -> Toy.rs_enc 8 encoded = Ok framed ->
  framed <> [].
Proof.
  intros _ H.
  injection H as <-.
  intro Hnil.
  apply (f_equal (@List.length byte)) in Hnil.
  rewrite length_app in Hnil.
  cbn in Hnil.
  lia.
Qed.

End ToyCodecsFacts.

(** ** The further statements at concrete inputs *)

Lemma get_bytes_get_blocks_drops_leading_zeros_witness :
  exists chunks blocks,
    message_blocks [x00; x01; x02; x00; x00; x05] 2 = Ok chunks
    /\ List.concat chunks = [x00; x01; x02; x00; x00; x05]
    /\ get_blocks [x00; x01; x02; x00; x00; x05] 2 = Ok blocks
    /\ forall fuel, (6 < fuel)%nat ->
         get_bytes fuel blocks = Some (List.concat (map drop_zeros chunks)).
Proof.
  apply (get_bytes_get_blocks_drops_leading_zeros
           [x00; x01; x02; x00; x00; x05] 2).
  reflexivity.
Defined.

Lemma get_bytes_inverts_get_blocks_witness :
  exists blocks,
    get_blocks [x01; x02; x03] 2 = Ok blocks
    /\ get_bytes 4 blocks = Some [x01; x02; x03].
Proof.
  apply (get_bytes_inverts_get_blocks [x01; x02; x03] 2 [[x01; x02]; [x03]] 4).
  - reflexivity.
  - reflexivity.
  - repeat constructor; intros rest H; discriminate H.
  - repeat constructor.
Defined.

Lemma get_bytes_diverges_on_negative_block_witness :
  get_bytes 1000 [258; -1; 3] = None.
Proof.
  apply (get_bytes_diverges_on_negative_block [258; -1; 3] (-1) 1000).
  - right; left; reflexivity.
  - reflexivity.
Defined.

Lemma get_bytes_returns_on_nonnegative_blocks_witness :
  exists data fuel0,
    (forall fuel, (fuel0 <= fuel)%nat -> get_bytes fuel [66051; 0; 3] = Some data)
    /\ (Forall (fun block => block = 0) [66051; 0; 3] -> data = []).
Proof.
  apply (get_bytes_returns_on_nonnegative_blocks [66051; 0; 3]).
  repeat constructor; discriminate.
Defined.

Lemma get_blocks_inverts_get_bytes_witness :
  exists data,
    (forall fuel, (4 < fuel)%nat -> get_bytes fuel [66051] = Some data)
    /\ get_blocks data 4 = Ok [66051].
Proof.
  apply (get_blocks_inverts_get_bytes 66051 4).
  split; reflexivity.
Defined.

Lemma get_blocks_count_and_range_witness :
  exists blocks,
    get_blocks [x00; x01; x02; x00; x00] 2 = Ok blocks
    /\ len blocks = (len [x00; x01; x02; x00; x00] + 2 - 1) / 2
    /\ Forall (fun z => 0 <= z < 256 ^ 2) blocks.
Proof.
  apply (get_blocks_count_and_range [x00; x01; x02; x00; x00] 2).
  reflexivity.
Defined.

Lemma strip_headers_body_has_no_trailing_newline_witness :
  (2 <= String.length ("x" ++ Toy.parity30))%nat
  /\ (exists first rest,
        ("x" ++ Toy.parity30)%string = String first rest
        /\ body_class first = true)
  /\ (forall front,
        ("x" ++ Toy.parity30)%string
        <> (front ++ String newline EmptyString)%string).
Proof.
  apply (strip_headers_body_has_no_trailing_newline
           Toy.alice_public "BEGIN FINCRYPT PUBLIC KEY" ("x" ++ Toy.parity30)).
  reflexivity.
Defined.

Lemma text_without_leading_dash_is_rejected_witness :
  strip_headers (String newline Toy.alice_public) = (None, None)
  /\ read_message (String newline Toy.alice_public) = Raise ValueError
  /\ @read_public_key Toy.primitives (String newline Toy.alice_public)
     = Raise ValueError
  /\ @read_private_key Toy.primitives (String newline Toy.alice_public)
     = Raise ValueError.
Proof.
  apply (@text_without_leading_dash_is_rejected Toy.primitives
           (String newline Toy.alice_public)).
  intros rest H.
  discriminate H.
Defined.

Lemma decrypt_and_verify_returns_unverified_plaintext_witness :
  exists blob,
    @encrypt_and_sign Toy.primitives Toy.draws Toy.hello
      Toy.bob_public Toy.alice_private = Ok blob
    /\ @decrypt_and_verify Toy.primitives blob Toy.bob_public Toy.bob_private
       = Ok (Some Toy.hello, false).
Proof.
  pose (blob := match @encrypt_and_sign Toy.primitives Toy.draws Toy.hello
                        Toy.bob_public Toy.alice_private with
                | Ok b => b
                | Raise _ => []
                end).
  pose (env := match @open_envelope Toy.primitives blob with
               | Ok e => e
               | Raise _ => {| env_message := []; env_key := [];
                               env_signature := [] |}
               end).
  exists blob.
  split; [vm_compute; reflexivity |].
  destruct (@decrypt_and_verify_returns_unverified_plaintext Toy.primitives
              blob Toy.bob_public Toy.bob_private
              {| k := 15683; priv_name := []; priv_email := [] |}
              {| kx := 121; ky := 1; pub_name := []; pub_email := [] |}
              env Toy.hello)
    as (verified & Hv & Hiff);
    [vm_compute; reflexivity .. |].
  destruct verified; [| exact Hv].
  assert (H : Ok false = Ok true :> result bool)
    by (apply Hiff; reflexivity).
  discriminate H.
Defined.

Lemma strip_headers_returns_none_or_label_witness :
  exists header body,
    strip_headers Toy.alice_private = (Some header, Some body)
    /\ In header armor_headers.
Proof.
  destruct (strip_headers_returns_none_or_label Toy.alice_private)
    as [Hnone | Hsome]; [| exact Hsome].
  vm_compute in Hnone.
  discriminate Hnone.
Defined.

Lemma readers_are_mutually_exclusive_witness :
  read_message Toy.alice_public = Raise ValueError
  /\ @read_private_key Toy.primitives Toy.alice_public = Raise ValueError.
Proof.
  apply (proj1 (proj2 (@readers_are_mutually_exclusive Toy.primitives
                         Toy.alice_public))
           {| kx := 120; ky := 1; pub_name := []; pub_email := [] |}).
  vm_compute; reflexivity.
Defined.

Lemma decrypt_and_verify_raises_only_for_keyfiles_witness :
  @decrypt_and_verify Toy.primitives [x00] Toy.alice_public Toy.bob_public
  = Raise (FinCryptDecodingError "Private key file is malformed.").
Proof.
  apply (proj1 (@decrypt_and_verify_raises_only_for_keyfiles Toy.primitives
                  [x00] Toy.alice_public Toy.bob_public) ValueError).
  vm_compute; reflexivity.
Defined.

Lemma encrypt_and_sign_error_reports_witness :
  @encrypt_and_sign Toy.primitives Toy.draws Toy.hello
    Toy.alice_private Toy.alice_private
  = Raise (FinCryptDecodingError "Recipient keyfile was malformed.").
Proof.
  apply (proj1 (@encrypt_and_sign_error_reports Toy.primitives Toy.draws
                  Toy.hello Toy.alice_private Toy.alice_private) ValueError).
  vm_compute; reflexivity.
Defined.

Lemma short_signature_is_never_verified_witness :
  exists plaintext,
    @decrypt_and_verify Toy.primitives
      (Toy.put_ints [1; 1] ++ Toy.put_ints [1] ++ repeat x00 8)
      Toy.alice_public Toy.bob_private
    = Ok (plaintext, false).
Proof.
  apply (@short_signature_is_never_verified Toy.primitives
           (Toy.put_ints [1; 1] ++ Toy.put_ints [1] ++ repeat x00 8)
           Toy.alice_public Toy.bob_private
           {| k := 15683; priv_name := []; priv_email := [] |}
           {| kx := 120; ky := 1; pub_name := []; pub_email := [] |}
           {| env_message := []; env_key := [1; 1]; env_signature := [1] |}).
  - vm_compute; reflexivity.
  - vm_compute; reflexivity.
  - vm_compute; reflexivity.
  - cbn [env_signature List.length]. lia.
Defined.

Lemma decrypt_message_key_arity_witness :
  @decrypt_message Toy.primitives 15683 [5] Toy.hello = Raise IndexError.
Proof.
  apply (proj1 (@decrypt_message_key_arity Toy.primitives 15683 [5] Toy.hello)).
  cbn [List.length]. lia.
Defined.

Lemma authenticate_message_accepts_sign_message_witness :
  exists sig,
    @sign_message Toy.primitives 77 15682 Toy.hello = Ok sig
    /\ @authenticate_message Toy.primitives 120 1 (Some Toy.hello)
         [fst sig; snd sig] = Ok true.
Proof.
  apply (@authenticate_message_accepts_sign_message Toy.primitives
           Toy.corresponds ToyFacts.sha_length ToyFacts.ecdsa_valid
           77 15682 120 1 Toy.hello).
  split; reflexivity.
Defined.

Lemma decrypt_message_inverts_encrypt_message_witness :
  exists encrypted_key blocks,
    @encrypt_message Toy.primitives Toy.draws 121 1 Toy.hello
    = Ok (encrypted_key, blocks)
    /\ @decrypt_message Toy.primitives 15683
         [fst encrypted_key; snd encrypted_key] blocks = Ok Toy.hello.
Proof.
  apply (@decrypt_message_inverts_encrypt_message Toy.primitives
           Toy.corresponds ToyFacts.sha_length ToyFacts.shake_length
           ToyFacts.aes_round_trip ToyFacts.ecies_agree
           Toy.draws 15683 121 1 Toy.hello).
  split; reflexivity.
Defined.

Lemma decrypt_message_accepts_any_long_block_witness :
  (exists m, @decrypt_message Toy.primitives 15683 [1; 1] (repeat x07 40) = Ok m
             /\ len m = 7)
  /\ @decrypt_message Toy.primitives 15683 [1; 1] (repeat x07 20)
     = Raise ValueError.
Proof.
  split.
  - apply (proj1 (@decrypt_message_accepts_any_long_block Toy.primitives
                    ToyFacts.shake_length 15683 1 1 121 []
                    (repeat x07 40) (repeat x07 39)
                    (aes_key_of (@key_material Toy.primitives 121),
                     iv_of (@key_material Toy.primitives 121))
                    eq_refl eq_refl eq_refl)).
    vm_compute; discriminate.
  - apply (proj2 (@decrypt_message_accepts_any_long_block Toy.primitives
                    ToyFacts.shake_length 15683 1 1 121 []
                    (repeat x07 20) (repeat x07 19)
                    (aes_key_of (@key_material Toy.primitives 121),
                     iv_of (@key_material Toy.primitives 121))
                    eq_refl eq_refl eq_refl)).
    reflexivity.
Defined.

Lemma oaep_unpad_inverts_oaep_pad_any_length_witness :
  exists padded,
    @oaep_pad Toy.primitives (2 ^ 40 + 5) Toy.hello 16 = Ok padded
    /\ len padded = len Toy.hello + 16
    /\ @oaep_unpad Toy.primitives padded 16 = Ok Toy.hello.
Proof.
  apply (@oaep_unpad_inverts_oaep_pad_any_length Toy.primitives
           ToyFacts.shake_length (2 ^ 40 + 5) Toy.hello 16).
  lia.
Defined.

Lemma oaep_unpad_zero_append_length_witness :
  @oaep_unpad Toy.primitives [x00; x01] 0 = Raise OverflowError.
Proof.
  apply (@oaep_unpad_zero_append_length Toy.primitives ToyFacts.shake_length
           [x00; x01]).
  vm_compute; discriminate.
Defined.

Lemma read_message_inverts_armor_message_witness :
  exists text body,
    armor_message "aGVsbG8_" = Ok text
    /\ read_message text = Ok body
    /\ String.concat EmptyString (split_char newline body) = "aGVsbG8_"%string.
Proof.
  apply (read_message_inverts_armor_message "aGVsbG8_").
  - reflexivity.
  - cbn [String.length]. lia.
Defined.

Lemma decrypt_binary_inverts_encrypt_binary_witness :
  exists written,
    @encrypt_binary ToyCodecs.primitives ToyCodecs.codecs Toy.draws
      (Some ToyCodecs.bob_public) (Some ToyCodecs.alice_private) Toy.hello
    = Returned written
    /\ @decrypt_binary ToyCodecs.primitives ToyCodecs.codecs
         (Some ToyCodecs.alice_public) (Some ToyCodecs.bob_private) written
       = Returned {| stdout_buffer := Toy.hello; stderr := EmptyString |}.
Proof.
  apply (@decrypt_binary_inverts_encrypt_binary
           ToyCodecs.primitives ToyCodecs.codecs Toy.corresponds
           ToyFacts.sha_length ToyFacts.shake_length ToyFacts.aes_round_trip
           ToyFacts.ecies_agree ToyFacts.ecdsa_valid
           ToyFacts.der_round_trip ToyFacts.rs_round_trip
           ToyCodecsFacts.zlib_round_trip
           Toy.draws Toy.hello
           ToyCodecs.alice_public ToyCodecs.alice_private
           ToyCodecs.bob_public ToyCodecs.bob_private
           {| kx := 66; ky := 1; pub_name := []; pub_email := [] |}
           {| kx := 67; ky := 1; pub_name := []; pub_email := [] |}
           {| k := 66; priv_name := []; priv_email := [] |}
           {| k := 67; priv_name := []; priv_email := [] |}).
  - vm_compute; reflexivity.
  - vm_compute; reflexivity.
  - split; reflexivity.
  - vm_compute; reflexivity.
  - vm_compute; reflexivity.
  - split; reflexivity.
Defined.

Lemma decrypt_text_inverts_encrypt_text_witness :
  exists written,
    @encrypt_text ToyCodecs.primitives ToyCodecs.codecs Toy.draws
      (Some ToyCodecs.bob_public) (Some ToyCodecs.alice_private) Toy.hello
    = Returned written
    /\ @decrypt_text ToyCodecs.primitives ToyCodecs.codecs
         (Some ToyCodecs.alice_public) (Some ToyCodecs.bob_private) written
       = Returned {| stdout_buffer := Toy.hello; stderr := EmptyString |}.
Proof.
  apply (@decrypt_text_inverts_encrypt_text
           ToyCodecs.primitives ToyCodecs.codecs Toy.corresponds
           ToyFacts.sha_length ToyFacts.shake_length ToyFacts.aes_round_trip
           ToyFacts.ecies_agree ToyFacts.ecdsa_valid
           ToyFacts.der_round_trip ToyFacts.rs_round_trip
           ToyCodecsFacts.framed_not_empty
           ToyCodecsFacts.zlib_round_trip ToyCodecsFacts.b64_round_trip
           ToyCodecsFacts.b64_alphabet ToyCodecsFacts.b64_length
           Toy.draws Toy.hello
           ToyCodecs.alice_public ToyCodecs.alice_private
           ToyCodecs.bob_public ToyCodecs.bob_private
           {| kx := 66; ky := 1; pub_name := []; pub_email := [] |}
           {| kx := 67; ky := 1; pub_name := []; pub_email := [] |}
           {| k := 66; priv_name := []; priv_email := [] |}
           {| k := 67; priv_name := []; priv_email := [] |}).
  - vm_compute; reflexivity.
  - vm_compute; reflexivity.
  - split; reflexivity.
  - vm_compute; reflexivity.
  - vm_compute; reflexivity.
  - split; reflexivity.
Defined.

Lemma decrypt_binary_writes_unverified_plaintext_witness :
  exists blob,
    @encrypt_binary ToyCodecs.primitives ToyCodecs.codecs Toy.draws
      (Some ToyCodecs.bob_public) (Some ToyCodecs.alice_private) Toy.hello
    = Returned blob
    /\ @decrypt_binary ToyCodecs.primitives ToyCodecs.codecs
         (Some ToyCodecs.bob_public) (Some ToyCodecs.bob_private) blob
       = Returned
           {| stdout_buffer := Toy.hello;
              stderr := ("Verification failed. Message is not intact."
                         ++ String newline EmptyString)%string |}.
Proof.
  pose (blob := match @encrypt_and_sign ToyCodecs.primitives Toy.draws
                        (ToyCodecs.compress Toy.hello)
                        ToyCodecs.bob_public ToyCodecs.alice_private with
                | Ok b => b
                | Raise _ => []
                end).
  pose (env := match @open_envelope ToyCodecs.primitives blob with
               | Ok e => e
               | Raise _ => {| env_message := []; env_key := [];
                               env_signature := [] |}
               end).
  exists blob.
  split; [vm_compute; reflexivity |].
  apply (@decrypt_binary_writes_unverified_plaintext
           ToyCodecs.primitives ToyCodecs.codecs
           blob ToyCodecs.bob_public ToyCodecs.bob_private
           {| k := 67; priv_name := []; priv_email := [] |}
           {| kx := 67; ky := 1; pub_name := []; pub_email := [] |}
           env (ToyCodecs.compress Toy.hello) Toy.hello).
  - vm_compute; reflexivity.
  - vm_compute; reflexivity.
  - vm_compute; reflexivity.
  - vm_compute; reflexivity.
  - vm_compute; discriminate.
  - reflexivity.
Defined.

Lemma decrypt_binary_reports_failed_decryption_witness :
  @decrypt_binary ToyCodecs.primitives ToyCodecs.codecs
    (Some ToyCodecs.alice_public) (Some ToyCodecs.bob_private) [x00]
  = Returned
      {| stdout_buffer := [];
         stderr := ("Decryption failed." ++ String newline
                      ("Verification failed. Message is not intact."
                       ++ String newline EmptyString))%string |}.
Proof.
  apply (@decrypt_binary_reports_failed_decryption
           ToyCodecs.primitives ToyCodecs.codecs
           [x00] ToyCodecs.alice_public ToyCodecs.bob_private
           {| k := 67; priv_name := []; priv_email := [] |}
           {| kx := 66; ky := 1; pub_name := []; pub_email := [] |}).
  - exists TypeError; reflexivity.
  - vm_compute; reflexivity.
  - vm_compute; reflexivity.
  - left. exists (LibraryError "reedsolomon"). reflexivity.
Defined.

Lemma decrypt_operations_report_keyfiles_witness :
  @decrypt_binary ToyCodecs.primitives ToyCodecs.codecs
    (Some ToyCodecs.alice_public) (Some ToyCodecs.alice_public) [x00]
  = Returned
      {| stdout_buffer := [];
         stderr := ("Private key file is malformed."
                    ++ String newline EmptyString)%string |}.
Proof.
  apply (proj1 (proj2 (proj2 (proj2
           (@decrypt_operations_report_keyfiles
              ToyCodecs.primitives ToyCodecs.codecs [x00] EmptyString
              ToyCodecs.alice_public ToyCodecs.alice_public))))
           ValueError).
  vm_compute; reflexivity.
Defined.
